(** * Chat_Dox: the voice-or-text query controller of static/script.js

    A shallow embedding of the browser script
    [2-ollama-privateGPT-chat-with-docs/static/script.js].

    The script is a set of event handlers over the page.  Here the page
    is an explicit state (the field, the children of the transcript, the
    indicator on the voice button, the pending timeouts, the suspended
    activations of [sendQueryToServer]) and every handler is a transformer
    of it, written statement by statement in a small state monad.  Every
    call the script makes on its surroundings is also appended to a log, so
    that the order of calls inside one handler can be stated.

    [sendQueryToServer] is an [async] function with two [await]s.  An
    activation runs up to [await fetch(...)], is suspended, resumes when
    that promise settles, is suspended again at [await response.json()],
    and resumes a last time.  Other handlers may run in between.  The
    event loop is a function [step] from an event and a state to the next
    state; time is a clock in milliseconds that the event [Elapse] moves.

    The claims are about the page with the engine present.  What the
    script does when it is loaded, with or without the engine, is [load];
    [page_step] is the event loop of the page it leaves behind.

    Outside the model: how the browser renders [innerHTML] and
    [innerText], floating point in JSON numbers, and the inside of the
    speech engine. *)

From Stdlib Require Import List NArith Bool Arith Lia String Ascii.
Import ListNotations.

#[local] Set Warnings "-register-all".

(** ** JavaScript strings

    A JavaScript string is a sequence of 16-bit code units; a code unit is
    kept as an [N]. *)
Module JS.

Definition jsstring := list N.

(** An ASCII literal of the script, as code units. *)
Definition lit (s : string) : jsstring :=
  map N_of_ascii (list_ascii_of_string s).

Fixpoint eqb (a b : jsstring) : bool :=
  match a, b with
  | [], [] => true
  | x :: a', y :: b' => N.eqb x y && eqb a' b'
  | _, _ => false
  end.

(** [s === ""], and the falsiness of a string in [if (s)]. *)
Definition is_empty (s : jsstring) : bool :=
  match s with [] => true | _ :: _ => false end.

(** WhiteSpace and LineTerminator of ECMAScript: TAB, LF, VT, FF, CR,
    SP, NBSP, U+1680, U+2000..U+200A, U+2028, U+2029, U+202F, U+205F,
    U+3000 and U+FEFF. *)
Definition is_white_space (c : N) : bool :=
  ((9 <=? c) && (c <=? 13) || (c =? 32) || (c =? 160) || (c =? 5760)
   || (8192 <=? c) && (c <=? 8202) || (c =? 8232) || (c =? 8233)
   || (c =? 8239) || (c =? 8287) || (c =? 12288) || (c =? 65279))%N.

Fixpoint trimStart (s : jsstring) : jsstring :=
  match s with
  | c :: s' => if is_white_space c then trimStart s' else s
  | [] => []
  end.

(** [String.prototype.trim]. *)
Definition trim (s : jsstring) : jsstring :=
  rev (trimStart (rev (trimStart s))).

(** [s.replace(/\n/g, "<br>")]: every LINE FEED gives way to the four
    code units of [<br>]. *)
Definition replace_newlines (s : jsstring) : jsstring :=
  flat_map (fun c => if (c =? 10)%N then lit "<br>" else [c]) s.

End JS.
Import JS.

(** ** JSON values and [JSON.stringify] *)
Module JSON.

(** A value as [JSON.parse] returns it.  A Number is carried as the text
    [JSON.stringify] gives for it (floating point is not modelled); an
    object lists its own properties in the order the object enumerates
    them, each key once. *)
Inductive json :=
| JNull
| JBool (b : bool)
| JNum (shown : jsstring)
| JStr (s : jsstring)
| JArr (items : list json)
| JObj (props : list (jsstring * json)).

Definition hex_digit (d : N) : N :=
  (if d <? 10 then 48 + d else 87 + d)%N.

(** [\uXXXX], four lower-case hexadecimal digits. *)
Definition unicode_escape (c : N) : jsstring :=
  lit "\u" ++ [hex_digit (c / 4096 mod 16); hex_digit (c / 256 mod 16);
               hex_digit (c / 16 mod 16); hex_digit (c mod 16)]%N.

Definition is_leading_surrogate (c : N) : bool :=
  ((55296 <=? c) && (c <=? 56319))%N.
Definition is_trailing_surrogate (c : N) : bool :=
  ((56320 <=? c) && (c <=? 57343))%N.

Definition escape_unit (c : N) : jsstring :=
  (if c =? 8 then lit "\b"
   else if c =? 9 then lit "\t"
   else if c =? 10 then lit "\n"
   else if c =? 12 then lit "\f"
   else if c =? 13 then lit "\r"
   else if c =? 34 then [92; 34]
   else if c =? 92 then [92; 92]
   else if (c <? 32) || is_leading_surrogate c || is_trailing_surrogate c
        then unicode_escape c
   else [c])%N.

(** The characters of QuoteJSONString, code point by code point: a
    surrogate pair passes as it is, a lone surrogate is escaped. *)
Fixpoint quote_units (s : jsstring) : jsstring :=
  match s with
  | [] => []
  | c :: s' =>
      match s' with
      | d :: s'' =>
          if is_leading_surrogate c && is_trailing_surrogate d
          then c :: d :: quote_units s''
          else escape_unit c ++ quote_units s'
      | [] => escape_unit c
      end
  end.

Definition QuoteJSONString (s : jsstring) : jsstring :=
  [34%N] ++ quote_units s ++ [34%N].

Fixpoint join (sep : jsstring) (parts : list jsstring) : jsstring :=
  match parts with
  | [] => []
  | [p] => p
  | p :: rest => p ++ sep ++ join sep rest
  end.

(** The brackets of SerializeJSONObject and SerializeJSONArray around the
    serialized members [partial]. *)
Definition enclose (opening closing : string) (gap indent stepback : jsstring)
           (partial : list jsstring) : jsstring :=
  match partial with
  | [] => lit opening ++ lit closing
  | _ :: _ =>
      if is_empty gap
      then lit opening ++ join (lit ",") partial ++ lit closing
      else lit opening ++ [10%N] ++ indent
           ++ join (lit "," ++ [10%N] ++ indent) partial
           ++ [10%N] ++ stepback ++ lit closing
  end.

(** SerializeJSONProperty on a parsed value: no [undefined], no function,
    no [toJSON], no cycle. *)
Fixpoint serialize (gap indent : jsstring) (v : json) : jsstring :=
  match v with
  | JNull => lit "null"
  | JBool true => lit "true"
  | JBool false => lit "false"
  | JNum shown => shown
  | JStr s => QuoteJSONString s
  | JArr items =>
      let stepback := indent in
      let indent := indent ++ gap in
      enclose "[" "]" gap indent stepback (map (serialize gap indent) items)
  | JObj props =>
      let stepback := indent in
      let indent := indent ++ gap in
      enclose "{" "}" gap indent stepback
        (map (fun p : jsstring * json =>
                let (k, x) := p in
                QuoteJSONString k ++ lit ":"
                ++ (if is_empty gap then [] else lit " ")
                ++ serialize gap indent x) props)
  end.

(** [JSON.stringify(v)], and [JSON.stringify(v, null, n)]: the gap is [n]
    spaces, ten at most. *)
Definition stringify (v : json) : jsstring := serialize [] [] v.
Definition stringify_spaces (n : nat) (v : json) : jsstring :=
  serialize (repeat 32%N (Nat.min n 10)) [] v.

(** [o.k] on an object: the value of the own property [k]. *)
Fixpoint get_own (k : jsstring) (props : list (jsstring * json)) : option json :=
  match props with
  | [] => None
  | (k', x) :: rest => if JS.eqb k k' then Some x else get_own k rest
  end.

End JSON.
Import JSON.


(** ** The page: elements, requests, suspended activations *)

(** What the script assigned to an element: nothing, markup through
    [innerHTML] (the browser parses it), or text through [innerText] (the
    browser shows it as it is). *)
Inductive content :=
| NoContent
| InnerHTML (markup : jsstring)
| InnerText (text : jsstring).

(** A [div] made by [document.createElement]; [uid] is its identity. *)
Record element := mkElement {
  uid : nat;
  classList : list string;
  inner : content
}.

Record request := mkRequest {
  url : string;
  method : string;
  headers : list (string * string);
  body : jsstring
}.

(** The three places that call [sendQueryToServer]: the timeout callback
    of [commands['*query']], the click handler of the Send button, and the
    keydown handler of the field.  It is kept with the activation as a
    return address would be; no code reads it. *)
Inductive call_site := FromTimer | FromClick | FromKeydown.

(** Where an activation of [sendQueryToServer] waits: at
    [await fetch(...)], or at [await response.json()] with [response.ok]
    already known. *)
Inductive stage :=
| AwaitFetch
| AwaitJson (ok : bool).

Record activation := mkActivation {
  caller : call_site;
  loadingSpinner : element;
  awaiting : stage
}.

(** The calls the script makes on the page, the network, the timers, the
    speech engine and the console, as they are made. *)
Inductive call :=
| SetValue (v : jsstring)
| AppendChild (el : element)
| Remove (el : element)
| ScrollToBottom
| Fetch (r : request)
| ClearTimeout (t : option nat)
| SetTimeout (id delay : nat)
| AnnyangStart (continuous autoRestart : bool)
| AnnyangAbort
| MicActiveAdd
| MicActiveRemove
| ConsoleError
| PreventDefault.

Record state := mkState {
  queryField : jsstring;               (* queryField.value *)
  messagesContainer : list element;    (* its children, in document order *)
  mic_active : bool;                   (* 'mic-active' on the button's img *)
  listening : bool;                    (* annyang.isListening() *)
  inactivityTimer : option nat;        (* undefined, or a timeout id *)
  timeouts : list (nat * nat);         (* pending timeouts: id, due time *)
  clock : nat;                         (* milliseconds *)
  suspended : list (nat * activation); (* activations waiting at an await *)
  next_element : nat;
  next_timeout : nat;
  next_activation : nat;
  log : list call
}.

(** The page as the script finds it: an empty field and transcript, the
    engine not started. *)
Definition initial : state :=
  mkState [] [] false false None [] 0 [] 0 1 0 [].

Definition silenceDelay : nat := 3000.

(** ** Statements of the script, as state transformers *)

Definition M (A : Type) : Type := state -> A * state.
Definition ret {A} (a : A) : M A := fun s => (a, s).
Definition bind {A B} (c : M A) (k : A -> M B) : M B :=
  fun s => let (a, s') := c s in k a s'.
Definition exec {A} (c : M A) (s : state) : state := snd (c s).

Declare Scope script_scope.
Delimit Scope script_scope with script.
Notation "x <- c ;; k" := (bind c (fun x => k))
  (at level 61, c at next level, right associativity) : script_scope.
Notation "c ;; k" := (bind c (fun _ => k))
  (at level 61, right associativity) : script_scope.
Open Scope script_scope.

Definition record (c : call) (s : state) : state :=
  mkState (queryField s) (messagesContainer s) (mic_active s) (listening s)
          (inactivityTimer s) (timeouts s) (clock s) (suspended s)
          (next_element s) (next_timeout s) (next_activation s)
          (log s ++ [c]).

Definition with_queryField (v : jsstring) (s : state) : state :=
  mkState v (messagesContainer s) (mic_active s) (listening s)
          (inactivityTimer s) (timeouts s) (clock s) (suspended s)
          (next_element s) (next_timeout s) (next_activation s) (log s).

Definition with_messagesContainer (m : list element) (s : state) : state :=
  mkState (queryField s) m (mic_active s) (listening s)
          (inactivityTimer s) (timeouts s) (clock s) (suspended s)
          (next_element s) (next_timeout s) (next_activation s) (log s).

Definition with_mic_active (b : bool) (s : state) : state :=
  mkState (queryField s) (messagesContainer s) b (listening s)
          (inactivityTimer s) (timeouts s) (clock s) (suspended s)
          (next_element s) (next_timeout s) (next_activation s) (log s).

Definition with_listening (b : bool) (s : state) : state :=
  mkState (queryField s) (messagesContainer s) (mic_active s) b
          (inactivityTimer s) (timeouts s) (clock s) (suspended s)
          (next_element s) (next_timeout s) (next_activation s) (log s).

Definition with_inactivityTimer (t : option nat) (s : state) : state :=
  mkState (queryField s) (messagesContainer s) (mic_active s) (listening s)
          t (timeouts s) (clock s) (suspended s)
          (next_element s) (next_timeout s) (next_activation s) (log s).

Definition with_timeouts (l : list (nat * nat)) (s : state) : state :=
  mkState (queryField s) (messagesContainer s) (mic_active s) (listening s)
          (inactivityTimer s) l (clock s) (suspended s)
          (next_element s) (next_timeout s) (next_activation s) (log s).

Definition with_clock (t : nat) (s : state) : state :=
  mkState (queryField s) (messagesContainer s) (mic_active s) (listening s)
          (inactivityTimer s) (timeouts s) t (suspended s)
          (next_element s) (next_timeout s) (next_activation s) (log s).

Definition with_suspended (l : list (nat * activation)) (s : state) : state :=
  mkState (queryField s) (messagesContainer s) (mic_active s) (listening s)
          (inactivityTimer s) (timeouts s) (clock s) l
          (next_element s) (next_timeout s) (next_activation s) (log s).

Definition with_next_element (n : nat) (s : state) : state :=
  mkState (queryField s) (messagesContainer s) (mic_active s) (listening s)
          (inactivityTimer s) (timeouts s) (clock s) (suspended s)
          n (next_timeout s) (next_activation s) (log s).

Definition with_next_timeout (n : nat) (s : state) : state :=
  mkState (queryField s) (messagesContainer s) (mic_active s) (listening s)
          (inactivityTimer s) (timeouts s) (clock s) (suspended s)
          (next_element s) n (next_activation s) (log s).

Definition with_next_activation (n : nat) (s : state) : state :=
  mkState (queryField s) (messagesContainer s) (mic_active s) (listening s)
          (inactivityTimer s) (timeouts s) (clock s) (suspended s)
          (next_element s) (next_timeout s) n (log s).

(** *** The document *)

Definition createElement : M element :=
  fun s => (mkElement (next_element s) [] NoContent,
            with_next_element (S (next_element s)) s).

Definition classList_add (c : string) (el : element) : element :=
  mkElement (uid el) (classList el ++ [c]) (inner el).

Definition set_innerHTML (v : jsstring) (el : element) : element :=
  mkElement (uid el) (classList el) (InnerHTML v).

Definition set_innerText (v : jsstring) (el : element) : element :=
  mkElement (uid el) (classList el) (InnerText v).

(** [messagesContainer.appendChild(el)], for an element the handler has
    just created: it has no parent to leave. *)
Definition appendChild (el : element) : M unit :=
  fun s => (tt, record (AppendChild el)
                  (with_messagesContainer (messagesContainer s ++ [el]) s)).

Definition detach (el : element) (children : list element) : list element :=
  filter (fun c => negb (uid c =? uid el)) children.

(** [el.remove()]: the element leaves its parent, if it has one. *)
Definition remove (el : element) : M unit :=
  fun s => (tt, record (Remove el)
                  (with_messagesContainer (detach el (messagesContainer s)) s)).

(** [messagesContainer.scrollTop = messagesContainer.scrollHeight]. *)
Definition scrollToBottom : M unit :=
  fun s => (tt, record ScrollToBottom s).

Definition get_value : M jsstring :=
  fun s => (queryField s, s).

Definition set_value (v : jsstring) : M unit :=
  fun s => (tt, record (SetValue v) (with_queryField v s)).

Definition mic_active_add : M unit :=
  fun s => (tt, record MicActiveAdd (with_mic_active true s)).

Definition mic_active_remove : M unit :=
  fun s => (tt, record MicActiveRemove (with_mic_active false s)).

Definition preventDefault : M unit :=
  fun s => (tt, record PreventDefault s).

Definition console_error : M unit :=
  fun s => (tt, record ConsoleError s).

(** *** The network and the timers *)

Definition fetch (r : request) : M unit :=
  fun s => (tt, record (Fetch r) s).

Definition cancel (id : nat) (pending : list (nat * nat)) : list (nat * nat) :=
  filter (fun t => negb (fst t =? id)) pending.

(** [clearTimeout(t)]: nothing happens for [undefined] or for an id that
    is not pending. *)
Definition clearTimeout (t : option nat) : M unit :=
  fun s => (tt, record (ClearTimeout t)
                  (match t with
                   | Some id => with_timeouts (cancel id (timeouts s)) s
                   | None => s
                   end)).

(** [setTimeout(callback, delay)]: the script has one callback, so a
    pending timeout is its id and the time it is due. *)
Definition setTimeout (delay : nat) : M nat :=
  fun s => (next_timeout s,
            record (SetTimeout (next_timeout s) delay)
              (with_next_timeout (S (next_timeout s))
                 (with_timeouts (timeouts s ++ [(next_timeout s, clock s + delay)]) s))).

Definition get_inactivityTimer : M (option nat) :=
  fun s => (inactivityTimer s, s).

Definition set_inactivityTimer (t : option nat) : M unit :=
  fun s => (tt, with_inactivityTimer t s).

(** *** The speech engine *)

(** Modelled from the spec: annyang is a library the page loads, not part
    of the script.  Of its capability surface the handlers use
    [isListening], [start] and [abort]; its listening state is a boolean
    that [start] sets and [abort] clears. *)
Definition annyang_isListening : M bool :=
  fun s => (listening s, s).

Definition annyang_start (continuous autoRestart : bool) : M unit :=
  fun s => (tt, record (AnnyangStart continuous autoRestart) (with_listening true s)).

Definition annyang_abort : M unit :=
  fun s => (tt, record AnnyangAbort (with_listening false s)).

(** *** Suspension at an [await] *)

Definition new_activation : M nat :=
  fun s => (next_activation s, with_next_activation (S (next_activation s)) s).

Definition await (sub : nat) (a : activation) : M unit :=
  fun s => (tt, with_suspended (suspended s ++ [(sub, a)]) s).

Fixpoint find_activation (sub : nat) (l : list (nat * activation)) : option activation :=
  match l with
  | [] => None
  | (i, a) :: rest => if i =? sub then Some a else find_activation sub rest
  end.

Definition drop_activation (sub : nat) (l : list (nat * activation)) :=
  filter (fun p => negb (fst p =? sub)) l.

Fixpoint due_of (id : nat) (l : list (nat * nat)) : option nat :=
  match l with
  | [] => None
  | (i, due) :: rest => if i =? id then Some due else due_of id rest
  end.

(** ** The script *)

(** The [catch] block of [sendQueryToServer]. *)
Definition catch_block : M unit :=
  console_error ;;
  errorDiv <- createElement ;;
  let errorDiv := classList_add "error" errorDiv in
  let errorDiv := set_innerHTML
    (lit "An error occurred while processing your query. Please try again later.")
    errorDiv in
  appendChild errorDiv ;;
  scrollToBottom.

(** [sendQueryToServer(query)], up to [await fetch(...)]. *)
Definition sendQueryToServer (from : call_site) (query : jsstring) : M unit :=
  queryDiv <- createElement ;;
  let queryDiv := classList_add "query-message" queryDiv in
  let queryDiv := set_innerHTML query queryDiv in
  loadingSpinner <- createElement ;;
  let loadingSpinner := classList_add "loading-spinner" loadingSpinner in
  appendChild queryDiv ;;
  appendChild loadingSpinner ;;
  set_value [] ;;
  scrollToBottom ;;
  let data := JObj [(lit "query", JStr query)] in
  fetch (mkRequest "/query" "POST" [("Content-Type"%string, "application/json"%string)]
           (stringify data)) ;;
  sub <- new_activation ;;
  await sub (mkActivation from loadingSpinner AwaitFetch).

(** The activation resumes from [await fetch(...)]: the promise was
    rejected ([None]), or fulfilled with a response whose [ok] is given.
    Either branch of [if (response.ok)] starts with
    [await response.json()]. *)
Definition after_fetch (sub : nat) (a : activation) (response : option bool) : M unit :=
  match response with
  | None => catch_block
  | Some ok => await sub (mkActivation (caller a) (loadingSpinner a) (AwaitJson ok))
  end.

(** [result.response.replace(/\n/g, "<br>")]: a TypeError ([None]) unless
    [result] is an object whose [response] is a string. *)
Definition response_markup (result : json) : option jsstring :=
  match result with
  | JObj props =>
      match get_own (lit "response") props with
      | Some (JStr s) => Some (replace_newlines s)
      | _ => None
      end
  | _ => None
  end.

(** The activation resumes from [await response.json()]: the promise was
    rejected ([None]) or fulfilled with the parsed body. *)
Definition after_json (a : activation) (ok : bool) (parsed : option json) : M unit :=
  match parsed with
  | None => catch_block
  | Some result =>
      if ok then
        remove (loadingSpinner a) ;;
        responseDiv <- createElement ;;
        let responseDiv := classList_add "response" responseDiv in
        match response_markup result with
        | None => catch_block
        | Some markup =>
            let responseDiv := set_innerHTML markup responseDiv in
            appendChild responseDiv ;;
            scrollToBottom ;;
            annyang_abort ;;
            mic_active_remove
        end
      else
        let errorResult := result in
        errorDiv <- createElement ;;
        let errorDiv := classList_add "error" errorDiv in
        let errorDiv := set_innerText
          (lit "Error: " ++ stringify_spaces 2 errorResult) errorDiv in
        appendChild errorDiv ;;
        scrollToBottom
  end.

(** The callback [commands['*query']] hands to [setTimeout]. *)
Definition inactivity_callback : M unit :=
  v <- get_value ;;
  let trimmedQuery := trim v in
  if is_empty trimmedQuery then ret tt
  else sendQueryToServer FromTimer trimmedQuery.

(** [commands['*query']]. *)
Definition commands_query (query : jsstring) : M unit :=
  set_value query ;;
  t <- get_inactivityTimer ;;
  clearTimeout t ;;
  id <- setTimeout silenceDelay ;;
  set_inactivityTimer (Some id).

(** The click handler of [voiceButton]. *)
Definition voiceButton_click : M unit :=
  on <- annyang_isListening ;;
  if on then
    annyang_abort ;;
    mic_active_remove
  else
    annyang_start true false ;;
    mic_active_add.

(** The branch both submit handlers take on [query === ""]. *)
Definition empty_query_error : M unit :=
  errorDiv <- createElement ;;
  let errorDiv := classList_add "error" errorDiv in
  let errorDiv := set_innerHTML
    (lit "Error: Please enter a query before sending.") errorDiv in
  appendChild errorDiv ;;
  scrollToBottom.

(** The click handler of [sendButton]. *)
Definition sendButton_click : M unit :=
  v <- get_value ;;
  let query := trim v in
  if is_empty query then empty_query_error
  else sendQueryToServer FromClick query.

(** The keydown handler of the field. *)
Definition query_keydown (key : jsstring) (shiftKey : bool) : M unit :=
  if JS.eqb key (lit "Enter") && negb shiftKey then
    v <- get_value ;;
    let query := trim v in
    (if is_empty query then empty_query_error
     else sendQueryToServer FromKeydown query) ;;
    preventDefault
  else ret tt.

(** ** The event loop *)

Inductive event :=
| Elapse (ms : nat)                           (* time passes *)
| UserInput (v : jsstring)                    (* the user edits the field *)
| Fragment (query : jsstring)                 (* annyang matches '*query' *)
| TimerFire (id : nat)                        (* a timeout expires *)
| VoiceClick
| SendClick
| KeyDown (key : jsstring) (shiftKey : bool)
| FetchSettles (sub : nat) (response : option bool)
| JsonSettles (sub : nat) (parsed : option json).

(** One task of the event loop.  [None]: the browser cannot deliver the
    event in this state (a timeout that is not pending or not yet due, a
    promise nobody waits for). *)
Definition step (e : event) (s : state) : option state :=
  match e with
  | Elapse ms => Some (with_clock (clock s + ms) s)
  | UserInput v => Some (with_queryField v s)
  | Fragment query => Some (exec (commands_query query) s)
  | TimerFire id =>
      match due_of id (timeouts s) with
      | Some due =>
          if due <=? clock s
          then Some (exec inactivity_callback
                       (with_timeouts (cancel id (timeouts s)) s))
          else None
      | None => None
      end
  | VoiceClick => Some (exec voiceButton_click s)
  | SendClick => Some (exec sendButton_click s)
  | KeyDown key shiftKey => Some (exec (query_keydown key shiftKey) s)
  | FetchSettles sub response =>
      match find_activation sub (suspended s) with
      | Some a =>
          match awaiting a with
          | AwaitFetch =>
              Some (exec (after_fetch sub a response)
                      (with_suspended (drop_activation sub (suspended s)) s))
          | AwaitJson _ => None
          end
      | None => None
      end
  | JsonSettles sub parsed =>
      match find_activation sub (suspended s) with
      | Some a =>
          match awaiting a with
          | AwaitJson ok =>
              Some (exec (after_json a ok parsed)
                      (with_suspended (drop_activation sub (suspended s)) s))
          | AwaitFetch => None
          end
      | None => None
      end
  end.

Fixpoint run (tr : list event) (s : state) : option state :=
  match tr with
  | [] => Some s
  | e :: tr' =>
      match step e s with
      | Some s' => run tr' s'
      | None => None
      end
  end.

Definition reachable (s : state) : Prop :=
  exists tr, run tr initial = Some s.

(** The state a trace leads to from the page as loaded (the page as
    loaded, if the trace cannot happen). *)
Definition state_after (tr : list event) : state :=
  match run tr initial with
  | Some s => s
  | None => initial
  end.

(** ** Observations *)

(** The requests sent so far. *)
Fixpoint requests_of (l : list call) : list request :=
  match l with
  | [] => []
  | Fetch r :: rest => r :: requests_of rest
  | _ :: rest => requests_of rest
  end.

Definition requests (s : state) : list request := requests_of (log s).

Definition has_class (c : string) (el : element) : bool :=
  existsb (String.eqb c) (classList el).

(** The loading placeholders in the transcript. *)
Definition placeholders (s : state) : list element :=
  filter (has_class "loading-spinner") (messagesContainer s).

(** How often the script has called [remove] on [el]. *)
Fixpoint removals (el : element) (l : list call) : nat :=
  match l with
  | [] => 0
  | Remove x :: rest => (if uid x =? uid el then 1 else 0) + removals el rest
  | _ :: rest => removals el rest
  end.

(** ** The elements and the request the theorems speak of

    Written out on their own; the theorems show that the script builds
    exactly these. *)

Definition queryDiv_of (s : state) (query : jsstring) : element :=
  mkElement (next_element s) ["query-message"%string] (InnerHTML query).

Definition loadingSpinner_of (s : state) : element :=
  mkElement (S (next_element s)) ["loading-spinner"%string] NoContent.

Definition request_of (query : jsstring) : request :=
  mkRequest "/query" "POST" [("Content-Type"%string, "application/json"%string)]
            (lit "{" ++ QuoteJSONString (lit "query") ++ lit ":"
             ++ QuoteJSONString query ++ lit "}").

Definition responseDiv_of (s : state) (text : jsstring) : element :=
  mkElement (next_element s) ["response"%string]
            (InnerHTML (replace_newlines text)).

Definition server_errorDiv_of (s : state) (errorResult : json) : element :=
  mkElement (next_element s) ["error"%string]
            (InnerText (lit "Error: " ++ stringify_spaces 2 errorResult)).

Definition generic_errorDiv_of (s : state) : element :=
  mkElement (next_element s) ["error"%string]
    (InnerHTML (lit "An error occurred while processing your query. Please try again later.")).

Definition empty_errorDiv_of (s : state) : element :=
  mkElement (next_element s) ["error"%string]
    (InnerHTML (lit "Error: Please enter a query before sending.")).

(** ** What holds of every state the page can be in *)

Record invariant (s : state) : Prop := mkInvariant {
  (* the indicator shows the engine's state *)
  inv_indicator : mic_active s = listening s;
  (* one timeout at most is pending, and [inactivityTimer] names it *)
  inv_one_timeout : List.length (timeouts s) <= 1;
  inv_timer_named : forall id due,
      In (id, due) (timeouts s) -> inactivityTimer s = Some id;
  (* identities still to be handed out are fresh *)
  inv_elements : Forall (fun el => uid el < next_element s) (messagesContainer s);
  inv_activations : Forall (fun p => fst p < next_activation s) (suspended s);
  inv_spinners : Forall (fun p => uid (loadingSpinner (snd p)) < next_element s)
                        (suspended s)
}.

(** ** Traces *)

(** The milliseconds that pass along a trace. *)
Fixpoint elapsed (tr : list event) : nat :=
  match tr with
  | [] => 0
  | Elapse ms :: tr' => ms + elapsed tr'
  | _ :: tr' => elapsed tr'
  end.

Definition is_fragment (e : event) : bool :=
  match e with Fragment _ => true | _ => false end.

(** A trace in which the engine reports no speech. *)
Definition silent (tr : list event) : bool :=
  forallb (fun e => negb (is_fragment e)) tr.

(** An event that resumes a suspended [sendQueryToServer]. *)
Definition is_settlement (e : event) : bool :=
  match e with
  | FetchSettles _ _ | JsonSettles _ _ => true
  | _ => false
  end.

(** [e] brings, in state [s], the successful response the activation [a]
    waits for: [response.ok], a body that parses, a string in its
    [response]. *)
Definition successful_response (e : event) (s : state) (a : activation) : Prop :=
  exists sub result markup,
    e = JsonSettles sub (Some result)
    /\ find_activation sub (suspended s) = Some a
    /\ awaiting a = AwaitJson true
    /\ response_markup result = Some markup.

(** A text cut at each LINE FEED. *)
Fixpoint lines (s : jsstring) : list jsstring :=
  match s with
  | [] => [[]]
  | c :: s' =>
      if (c =? 10)%N then [] :: lines s'
      else match lines s' with
           | l :: ls => (c :: l) :: ls
           | [] => [[c]]
           end
  end.

(** ** The script as the page loads it

    Lines 1 to 16 and 143 to 145: everything above sits inside
    [if (annyang) { ... } else { alert(...) }]. *)

(** [navigator.language || 'en-US']; [None] is a language the browser
    does not give. *)
Definition detectedLanguage (navigator_language : option jsstring) : jsstring :=
  match navigator_language with
  | Some l => if is_empty l then lit "en-US" else l
  | None => lit "en-US"
  end.

(** What the script does once, when the page runs it. *)
Inductive load_call :=
| SetLanguage (language : jsstring)
| AddCommands (pattern : string)
| AddEventListener (target type : string)
| Alert (message : jsstring).

(** The script from top to bottom; [annyang] is the truth value of the
    global the library leaves behind. *)
Definition load (annyang : bool) (navigator_language : option jsstring)
  : list load_call :=
  if annyang then
    [SetLanguage (detectedLanguage navigator_language);
     AddCommands "*query";
     AddEventListener "voiceBtn" "click";
     AddEventListener "sendBtn" "click";
     AddEventListener "query" "keydown"]
  else
    [Alert (lit "Speech recognition is not supported in this browser.")].

Definition listens (installed : list load_call) (target type : string) : bool :=
  existsb (fun c => match c with
                    | AddEventListener t y => String.eqb t target && String.eqb y type
                    | _ => false
                    end) installed.

Definition commands_added (installed : list load_call) : bool :=
  existsb (fun c => match c with AddCommands _ => true | _ => false end) installed.

(** The event loop of a page on which [installed] is what the script has
    done: an event nobody listens to changes nothing, and the engine calls
    no command that was not added. *)
Definition page_step (installed : list load_call) (e : event) (s : state)
  : option state :=
  match e with
  | VoiceClick => if listens installed "voiceBtn" "click" then step e s else Some s
  | SendClick => if listens installed "sendBtn" "click" then step e s else Some s
  | KeyDown _ _ => if listens installed "query" "keydown" then step e s else Some s
  | Fragment _ => if commands_added installed then step e s else None
  | _ => step e s
  end.

Fixpoint page_run (installed : list load_call) (tr : list event) (s : state)
  : option state :=
  match tr with
  | [] => Some s
  | e :: tr' =>
      match page_step installed e s with
      | Some s' => page_run installed tr' s'
      | None => None
      end
  end.

(** ** More observations *)

(** The transcript without the loading placeholders. *)
Definition entries (s : state) : list element :=
  filter (fun el => negb (has_class "loading-spinner" el)) (messagesContainer s).

(** The query entries of the transcript. *)
Definition query_entries (s : state) : list element :=
  filter (has_class "query-message") (messagesContainer s).

(** How many children of the transcript have the identity of [el]. *)
Definition occurrences (el : element) (s : state) : nat :=
  List.length (filter (fun c => uid c =? uid el) (messagesContainer s)).


(** What else holds of every state the page can be in: identities are
    handed out once, and an activation that waits has its placeholder in
    the transcript. *)
Record tidy (s : state) : Prop := mkTidy {
  tidy_elements : NoDup (map uid (messagesContainer s));
  tidy_activations : NoDup (map fst (suspended s));
  tidy_spinners : NoDup (map (fun p => uid (loadingSpinner (snd p))) (suspended s));
  tidy_shown : Forall (fun p => In (loadingSpinner (snd p)) (messagesContainer s)
                                /\ classList (loadingSpinner (snd p))
                                   = ["loading-spinner"%string])
                      (suspended s)
}.

(** The shapes a step can have, as far as the transcript, the suspended
    activations, the requests and the counters go. *)
Inductive shape (e : event) (s s' : state) : Prop :=
| Untouched :
    messagesContainer s' = messagesContainer s ->
    suspended s' = suspended s ->
    requests s' = requests s ->
    next_activation s' = next_activation s ->
    next_element s' = next_element s ->
    shape e s s'
| Submitted (from : call_site) :
    trim (queryField s) <> [] ->
    e = SendClick \/ (exists key, e = KeyDown key false) \/ (exists id, e = TimerFire id) ->
    messagesContainer s'
    = messagesContainer s
      ++ [queryDiv_of s (trim (queryField s)); loadingSpinner_of s] ->
    suspended s'
    = suspended s
      ++ [(next_activation s, mkActivation from (loadingSpinner_of s) AwaitFetch)] ->
    requests s' = requests s ++ [request_of (trim (queryField s))] ->
    next_activation s' = S (next_activation s) ->
    next_element s' = S (S (next_element s)) ->
    shape e s s'
| Refused :
    trim (queryField s) = [] ->
    e = SendClick \/ (exists key, e = KeyDown key false) ->
    messagesContainer s' = messagesContainer s ++ [empty_errorDiv_of s] ->
    suspended s' = suspended s ->
    requests s' = requests s ->
    next_activation s' = next_activation s ->
    next_element s' = S (next_element s) ->
    shape e s s'
| Answered (sub : nat) (a : activation) (ok : bool) :
    e = FetchSettles sub (Some ok) ->
    find_activation sub (suspended s) = Some a ->
    awaiting a = AwaitFetch ->
    messagesContainer s' = messagesContainer s ->
    suspended s'
    = drop_activation sub (suspended s)
      ++ [(sub, mkActivation (caller a) (loadingSpinner a) (AwaitJson ok))] ->
    requests s' = requests s ->
    next_activation s' = next_activation s ->
    next_element s' = next_element s ->
    shape e s s'
| Failed (sub : nat) (a : activation) (el : element) :
    is_settlement e = true ->
    find_activation sub (suspended s) = Some a ->
    messagesContainer s' = messagesContainer s ++ [el] ->
    uid el = next_element s ->
    classList el = ["error"%string] ->
    suspended s' = drop_activation sub (suspended s) ->
    requests s' = requests s ->
    next_activation s' = next_activation s ->
    next_element s' = S (next_element s) ->
    shape e s s'
| Unveiled (sub : nat) (a : activation) (result : json) (el : element) :
    e = JsonSettles sub (Some result) ->
    find_activation sub (suspended s) = Some a ->
    awaiting a = AwaitJson true ->
    messagesContainer s'
    = detach (loadingSpinner a) (messagesContainer s) ++ [el] ->
    next_element s <= uid el < next_element s' ->
    classList el = ["response"%string] \/ classList el = ["error"%string] ->
    suspended s' = drop_activation sub (suspended s) ->
    requests s' = requests s ->
    next_activation s' = next_activation s ->
    next_element s <= next_element s' ->
    shape e s s'.

(** ** Reading a JSON string literal back

    The inverse of the escapes [QuoteJSONString] writes; used to show that
    the body of a request determines the query. *)

Definition hex_value (h : N) : option N :=
  (if (48 <=? h) && (h <=? 57) then Some (h - 48)
   else if (97 <=? h) && (h <=? 102) then Some (h - 87)
   else None)%N.

Definition simple_escape (e : N) : option N :=
  (if e =? 98 then Some 8          (* \b *)
   else if e =? 116 then Some 9    (* \t *)
   else if e =? 110 then Some 10   (* \n *)
   else if e =? 102 then Some 12   (* \f *)
   else if e =? 114 then Some 13   (* \r *)
   else if e =? 34 then Some 34
   else if e =? 92 then Some 92
   else None)%N.

Fixpoint unescape (s : jsstring) : option jsstring :=
  match s with
  | [] => Some []
  | c :: r =>
      if (c =? 92)%N then
        match r with
        | [] => None
        | e :: r1 =>
            if (e =? 117)%N then
              match r1 with
              | h3 :: h2 :: h1 :: h0 :: r2 =>
                  match hex_value h3, hex_value h2, hex_value h1, hex_value h0,
                        unescape r2 with
                  | Some a, Some b, Some c', Some d, Some t =>
                      Some ((4096 * a + 256 * b + 16 * c' + d)%N :: t)
                  | _, _, _, _, _ => None
                  end
              | _ => None
              end
            else
              match simple_escape e, unescape r1 with
              | Some x, Some t => Some (x :: t)
              | _, _ => None
              end
        end
      else option_map (cons c) (unescape r)
  end.

(** ** Basic facts *)

Lemma requests_of_app (l l' : list call) :
  requests_of (l ++ l') = requests_of l ++ requests_of l'.
Proof.
  induction l as [|c l IH]; simpl; [reflexivity|].
  destruct c; simpl; rewrite ?IH; reflexivity.
Qed.

Lemma removals_app (el : element) (l l' : list call) :
  removals el (l ++ l') = removals el l + removals el l'.
Proof.
  induction l as [|c l IH]; simpl; [reflexivity|].
  destruct c; simpl; rewrite ?IH; lia.
Qed.

Lemma is_empty_true (s : jsstring) : is_empty s = true <-> s = [].
Proof. destruct s; simpl; split; congruence. Qed.

Lemma is_empty_false (s : jsstring) : is_empty s = false <-> s <> [].
Proof. destruct s; simpl; split; congruence. Qed.

Lemma stringify_data (query : jsstring) :
  stringify (JObj [(lit "query", JStr query)])
  = lit "{" ++ QuoteJSONString (lit "query") ++ lit ":"
    ++ QuoteJSONString query ++ lit "}".
Proof. reflexivity. Qed.

(** Unfolds the statements of the script down to the state they build;
    meant for a state given by its fields. *)
Ltac script :=
  cbv beta iota zeta delta
    [exec bind ret
     sendQueryToServer after_fetch after_json catch_block
     inactivity_callback commands_query voiceButton_click
     empty_query_error sendButton_click query_keydown
     createElement classList_add set_innerHTML set_innerText
     appendChild remove scrollToBottom get_value set_value
     mic_active_add mic_active_remove preventDefault console_error
     fetch clearTimeout setTimeout get_inactivityTimer
     set_inactivityTimer annyang_isListening annyang_start annyang_abort
     new_activation await
     record with_queryField with_messagesContainer with_mic_active
     with_listening with_inactivityTimer with_timeouts with_clock
     with_suspended with_next_element with_next_timeout
     with_next_activation
     queryDiv_of loadingSpinner_of responseDiv_of server_errorDiv_of
     generic_errorDiv_of empty_errorDiv_of
     queryField messagesContainer mic_active listening inactivityTimer
     timeouts clock suspended next_element next_timeout next_activation
     log uid classList inner caller loadingSpinner awaiting fst snd];
  cbn [app].

(** What [sendQueryToServer] leaves behind when it suspends. *)
Lemma sendQueryToServer_exec (from : call_site) (query : jsstring) (s : state) :
  exec (sendQueryToServer from query) s
  = mkState [] (messagesContainer s ++ [queryDiv_of s query; loadingSpinner_of s])
            (mic_active s) (listening s) (inactivityTimer s) (timeouts s) (clock s)
            (suspended s ++ [(next_activation s,
                              mkActivation from (loadingSpinner_of s) AwaitFetch)])
            (S (S (next_element s))) (next_timeout s) (S (next_activation s))
            (log s ++ [AppendChild (queryDiv_of s query);
                       AppendChild (loadingSpinner_of s);
                       SetValue []; ScrollToBottom; Fetch (request_of query)]).
Proof.
  destruct s. script. rewrite stringify_data, <- !app_assoc. reflexivity.
Qed.

Lemma catch_block_exec (s : state) :
  exec catch_block s
  = mkState (queryField s) (messagesContainer s ++ [generic_errorDiv_of s])
            (mic_active s) (listening s) (inactivityTimer s) (timeouts s) (clock s)
            (suspended s) (S (next_element s)) (next_timeout s) (next_activation s)
            (log s ++ [ConsoleError; AppendChild (generic_errorDiv_of s);
                       ScrollToBottom]).
Proof.
  destruct s. script. rewrite <- !app_assoc. reflexivity.
Qed.

Lemma empty_query_error_exec (s : state) :
  exec empty_query_error s
  = mkState (queryField s) (messagesContainer s ++ [empty_errorDiv_of s])
            (mic_active s) (listening s) (inactivityTimer s) (timeouts s) (clock s)
            (suspended s) (S (next_element s)) (next_timeout s) (next_activation s)
            (log s ++ [AppendChild (empty_errorDiv_of s); ScrollToBottom]).
Proof.
  destruct s. script. rewrite <- !app_assoc. reflexivity.
Qed.

(** The success branch, when [result.response] is a string. *)
Lemma after_json_success (a : activation) (result : json) (markup : jsstring) (s : state) :
  response_markup result = Some markup ->
  exec (after_json a true (Some result)) s
  = mkState (queryField s)
            (detach (loadingSpinner a) (messagesContainer s)
             ++ [mkElement (next_element s) ["response"%string] (InnerHTML markup)])
            false false (inactivityTimer s) (timeouts s) (clock s)
            (suspended s) (S (next_element s)) (next_timeout s) (next_activation s)
            (log s ++ [Remove (loadingSpinner a);
                       AppendChild (mkElement (next_element s) ["response"%string]
                                      (InnerHTML markup));
                       ScrollToBottom; AnnyangAbort; MicActiveRemove]).
Proof.
  intros Hm. destruct s. script. rewrite Hm. script.
  rewrite <- !app_assoc. reflexivity.
Qed.

(** The success branch, when [result.response.replace] throws: the
    placeholder is gone already, the [catch] block runs. *)
Lemma after_json_type_error (a : activation) (result : json) (s : state) :
  response_markup result = None ->
  exec (after_json a true (Some result)) s
  = mkState (queryField s)
            (detach (loadingSpinner a) (messagesContainer s)
             ++ [mkElement (S (next_element s)) ["error"%string]
                   (inner (generic_errorDiv_of s))])
            (mic_active s) (listening s) (inactivityTimer s) (timeouts s) (clock s)
            (suspended s) (S (S (next_element s))) (next_timeout s)
            (next_activation s)
            (log s ++ [Remove (loadingSpinner a); ConsoleError;
                       AppendChild (mkElement (S (next_element s)) ["error"%string]
                                      (inner (generic_errorDiv_of s)));
                       ScrollToBottom]).
Proof.
  intros Hm. destruct s. script. rewrite Hm. script.
  rewrite <- !app_assoc. reflexivity.
Qed.

(** The [else] branch: a response that is not [ok], its body parsed. *)
Lemma after_json_server_error (a : activation) (errorResult : json) (s : state) :
  exec (after_json a false (Some errorResult)) s
  = mkState (queryField s) (messagesContainer s ++ [server_errorDiv_of s errorResult])
            (mic_active s) (listening s) (inactivityTimer s) (timeouts s) (clock s)
            (suspended s) (S (next_element s)) (next_timeout s) (next_activation s)
            (log s ++ [AppendChild (server_errorDiv_of s errorResult);
                       ScrollToBottom]).
Proof.
  destruct s. script. rewrite <- !app_assoc. reflexivity.
Qed.

Lemma commands_query_exec (query : jsstring) (s : state) :
  exec (commands_query query) s
  = mkState query (messagesContainer s) (mic_active s) (listening s)
            (Some (next_timeout s))
            (match inactivityTimer s with
             | Some id => cancel id (timeouts s)
             | None => timeouts s
             end ++ [(next_timeout s, clock s + silenceDelay)])
            (clock s) (suspended s) (next_element s) (S (next_timeout s))
            (next_activation s)
            (log s ++ [SetValue query; ClearTimeout (inactivityTimer s);
                       SetTimeout (next_timeout s) silenceDelay]).
Proof.
  destruct s as [f m mic l [t|] ts c su ne nt na lg]; script;
    rewrite <- !app_assoc; reflexivity.
Qed.

Lemma voiceButton_click_exec (s : state) :
  exec voiceButton_click s
  = mkState (queryField s) (messagesContainer s)
            (negb (listening s)) (negb (listening s))
            (inactivityTimer s) (timeouts s) (clock s)
            (suspended s) (next_element s) (next_timeout s) (next_activation s)
            (log s ++ if listening s then [AnnyangAbort; MicActiveRemove]
                      else [AnnyangStart true false; MicActiveAdd]).
Proof.
  destruct s as [f m mic l t ts c su ne nt na lg]. script.
  destruct l; script; rewrite <- !app_assoc; reflexivity.
Qed.

Lemma Forall_filter {A} (P : A -> Prop) (f : A -> bool) (l : list A) :
  Forall P l -> Forall P (filter f l).
Proof.
  rewrite !Forall_forall. intros H x Hx. apply filter_In in Hx. apply H, Hx.
Qed.

Lemma length_filter_le {A} (f : A -> bool) (l : list A) :
  List.length (filter f l) <= List.length l.
Proof.
  induction l as [|x l IH]; simpl; [lia|]. destruct (f x); simpl; lia.
Qed.

(** Freshness goals: a bound that only grows, over lists that only gain
    elements made with the current counter. *)
Ltac bounded :=
  repeat match goal with
         | |- Forall _ (_ ++ _) => apply Forall_app; split
         | |- Forall _ (filter _ _) => apply Forall_filter
         | |- Forall _ (detach _ _) => apply Forall_filter
         | |- Forall _ (drop_activation _ _) => apply Forall_filter
         | |- Forall _ (_ :: _) => constructor
         | |- Forall _ [] => constructor
         | H : Forall _ ?l |- Forall _ ?l =>
             solve [exact H
                   | eapply Forall_impl; [|exact H]; simpl; intros; lia]
         | |- _ < _ => simpl; lia
         end.

Lemma initial_invariant : invariant initial.
Proof.
  constructor; simpl; auto. intros id due [].
Qed.

Lemma sendQueryToServer_invariant (from : call_site) (query : jsstring) (s : state) :
  invariant s -> invariant (exec (sendQueryToServer from query) s).
Proof.
  intros [Hi Ho Hn He Ha Hs]. rewrite sendQueryToServer_exec.
  constructor; simpl; auto; bounded.
Qed.

Lemma catch_block_invariant (s : state) :
  invariant s -> invariant (exec catch_block s).
Proof.
  intros [Hi Ho Hn He Ha Hs]. rewrite catch_block_exec.
  constructor; simpl; auto; bounded.
Qed.

Lemma empty_query_error_invariant (s : state) :
  invariant s -> invariant (exec empty_query_error s).
Proof.
  intros [Hi Ho Hn He Ha Hs]. rewrite empty_query_error_exec.
  constructor; simpl; auto; bounded.
Qed.

Lemma after_json_invariant (a : activation) (ok : bool) (parsed : option json) (s : state) :
  invariant s -> invariant (exec (after_json a ok parsed) s).
Proof.
  intros Hinv. destruct parsed as [result|]; [|apply catch_block_invariant, Hinv].
  destruct Hinv as [Hi Ho Hn He Ha Hs]. destruct ok.
  - destruct (response_markup result) as [markup|] eqn:Hm.
    + rewrite (after_json_success a result markup s Hm).
      constructor; simpl; auto; bounded.
    + rewrite (after_json_type_error a result s Hm).
      constructor; simpl; auto; bounded.
  - rewrite after_json_server_error.
    constructor; simpl; auto; bounded.
Qed.

Lemma find_activation_In (sub : nat) (l : list (nat * activation)) (a : activation) :
  find_activation sub l = Some a -> In (sub, a) l.
Proof.
  induction l as [|[i b] l IH]; simpl; [discriminate|].
  destruct (i =? sub) eqn:E.
  - intros [= ->]. apply Nat.eqb_eq in E. subst. now left.
  - intros H. right. apply IH, H.
Qed.

Lemma due_of_In (id : nat) (l : list (nat * nat)) (due : nat) :
  due_of id l = Some due -> In (id, due) l.
Proof.
  induction l as [|[i d] l IH]; simpl; [discriminate|].
  destruct (i =? id) eqn:E.
  - intros [= ->]. apply Nat.eqb_eq in E. subst. now left.
  - intros H. right. apply IH, H.
Qed.

(** After a fragment the timeout it has set is the only one pending. *)
Lemma commands_query_timeouts (query : jsstring) (s : state) :
  invariant s ->
  timeouts (exec (commands_query query) s)
  = [(next_timeout s, clock s + silenceDelay)].
Proof.
  intros [_ Ho Hn _ _ _]. rewrite commands_query_exec. simpl.
  destruct (timeouts s) as [|[id due] [|? ?]] eqn:Ht; simpl in Ho; try lia.
  - destruct (inactivityTimer s); reflexivity.
  - rewrite (Hn id due) by now left.
    unfold cancel. simpl. rewrite Nat.eqb_refl. reflexivity.
Qed.

Lemma step_invariant (e : event) (s s' : state) :
  step e s = Some s' -> invariant s -> invariant s'.
Proof.
  intros Hstep Hinv. destruct e; simpl in Hstep.
  - injection Hstep as <-. destruct Hinv. constructor; auto.
  - injection Hstep as <-. destruct Hinv. constructor; auto.
  - injection Hstep as <-.
    pose proof (commands_query_timeouts query s Hinv) as Ht.
    destruct Hinv as [Hi Ho Hn He Ha Hsp].
    constructor; try rewrite Ht.
    + rewrite commands_query_exec. exact Hi.
    + simpl. lia.
    + intros id due [[= <- <-]|[]]. rewrite commands_query_exec. reflexivity.
    + rewrite commands_query_exec. exact He.
    + rewrite commands_query_exec. exact Ha.
    + rewrite commands_query_exec. exact Hsp.
  - destruct (due_of id (timeouts s)) as [due|]; [|discriminate].
    destruct (due <=? clock s); [|discriminate]. injection Hstep as <-.
    assert (invariant (with_timeouts (cancel id (timeouts s)) s)) as Hinv'.
    { destruct Hinv as [Hi Ho Hn He Ha Hsp]. constructor; simpl; auto.
      - pose proof (length_filter_le (fun t => negb (fst t =? id)) (timeouts s)).
        unfold cancel. lia.
      - intros i d Hin. apply filter_In in Hin. apply (Hn i d), Hin. }
    unfold exec, inactivity_callback, bind, get_value. cbn [fst snd].
    destruct (is_empty _).
    + exact Hinv'.
    + apply (sendQueryToServer_invariant FromTimer _ _ Hinv').
  - injection Hstep as <-. rewrite voiceButton_click_exec.
    destruct Hinv. constructor; auto.
  - injection Hstep as <-.
    unfold exec, sendButton_click, bind, get_value. cbn [fst snd].
    destruct (is_empty _).
    + apply empty_query_error_invariant, Hinv.
    + apply (sendQueryToServer_invariant FromClick _ _ Hinv).
  - injection Hstep as <-.
    unfold query_keydown. destruct (_ && _); [|exact Hinv].
    unfold exec, bind, get_value, preventDefault. cbn [fst snd].
    destruct (is_empty _).
    + pose proof (empty_query_error_invariant s Hinv) as H.
      unfold exec in H. destruct (empty_query_error s) as [u s1]. cbn [snd] in *.
      destruct H. constructor; auto.
    + pose proof (sendQueryToServer_invariant FromKeydown
                    (trim (queryField s)) s Hinv) as H.
      unfold exec in H. destruct (sendQueryToServer _ _ s) as [u s1]. cbn [snd] in *.
      destruct H. constructor; auto.
  - destruct (find_activation sub (suspended s)) as [a|] eqn:Hf; [|discriminate].
    destruct (awaiting a); [|discriminate]. injection Hstep as <-.
    assert (invariant (with_suspended (drop_activation sub (suspended s)) s)) as Hinv'.
    { destruct Hinv as [Hi Ho Hn He Ha Hsp]. constructor; simpl; auto; bounded. }
    destruct response as [ok|]; [|apply catch_block_invariant, Hinv'].
    apply find_activation_In in Hf.
    destruct Hinv as [Hi Ho Hn He Ha Hsp].
    pose proof (proj1 (Forall_forall _ _) Ha _ Hf) as Hsub.
    pose proof (proj1 (Forall_forall _ _) Hsp _ Hf) as Huid.
    constructor; simpl; auto; bounded; assumption.
  - destruct (find_activation sub (suspended s)) as [a|] eqn:Hf; [|discriminate].
    destruct (awaiting a); [discriminate|]. injection Hstep as <-.
    apply after_json_invariant.
    destruct Hinv as [Hi Ho Hn He Ha Hsp]. constructor; simpl; auto; bounded.
Qed.

Lemma run_invariant (tr : list event) (s s' : state) :
  run tr s = Some s' -> invariant s -> invariant s'.
Proof.
  revert s. induction tr as [|e tr IH]; simpl; intros s Hrun Hinv.
  - injection Hrun as <-. exact Hinv.
  - destruct (step e s) as [s1|] eqn:Hs; [|discriminate].
    apply (IH s1 Hrun). apply (step_invariant e s s1 Hs Hinv).
Qed.

Lemma reachable_invariant (s : state) : reachable s -> invariant s.
Proof.
  intros [tr Hrun]. apply (run_invariant tr initial s Hrun initial_invariant).
Qed.

Lemma reachable_state_after (tr : list event) :
  run tr initial <> None -> reachable (state_after tr).
Proof.
  unfold state_after, reachable. destruct (run tr initial) as [s|] eqn:Hrun.
  - intros _. exists tr. exact Hrun.
  - intros H. destruct (H eq_refl).
Qed.

(** ** The handlers, one step each *)

Lemma step_SendClick (s : state) :
  step SendClick s
  = Some (if is_empty (trim (queryField s)) then exec empty_query_error s
          else exec (sendQueryToServer FromClick (trim (queryField s))) s).
Proof.
  simpl. unfold exec, sendButton_click, bind, get_value. cbn [fst snd].
  destruct (is_empty _); reflexivity.
Qed.

Lemma step_Enter (s : state) :
  step (KeyDown (lit "Enter") false) s
  = Some (record PreventDefault
            (if is_empty (trim (queryField s)) then exec empty_query_error s
             else exec (sendQueryToServer FromKeydown (trim (queryField s))) s)).
Proof.
  unfold step, query_keydown.
  change (JS.eqb (lit "Enter") (lit "Enter") && negb false) with true.
  unfold exec, bind, get_value, preventDefault. cbn [fst snd].
  destruct (is_empty _).
  - destruct (empty_query_error s). reflexivity.
  - destruct (sendQueryToServer _ _ s). reflexivity.
Qed.

Lemma step_TimerFire (id : nat) (s s' : state) :
  step (TimerFire id) s = Some s' ->
  exists due,
    In (id, due) (timeouts s) /\ due <= clock s
    /\ s' = (if is_empty (trim (queryField s))
             then with_timeouts (cancel id (timeouts s)) s
             else exec (sendQueryToServer FromTimer (trim (queryField s)))
                    (with_timeouts (cancel id (timeouts s)) s)).
Proof.
  simpl. destruct (due_of id (timeouts s)) as [due|] eqn:Hd; [|discriminate].
  destruct (due <=? clock s) eqn:Hle; [|discriminate].
  intros [= <-]. exists due. split; [apply due_of_In, Hd|].
  split; [apply Nat.leb_le, Hle|].
  unfold exec, inactivity_callback, bind, get_value, ret. cbn [fst snd].
  destruct (is_empty _); reflexivity.
Qed.

(** ** Submitting a query *)

(** C4. [sendQueryToServer(query)], from any of its callers and in any
    state, appends the query entry and after it the loading placeholder to
    the transcript, clears the field, and sends one request: a POST to
    [/query] with a JSON content type whose body is
    [JSON.stringify({ query: query })], the object with the single
    property [query].  It holds of every string, the empty one included,
    which no caller passes. *)
Theorem submit_appends_clears_and_posts
        (from : call_site) (query : jsstring) (s : state) :
  let s' := exec (sendQueryToServer from query) s in
  messagesContainer s'
  = messagesContainer s ++ [queryDiv_of s query; loadingSpinner_of s]
  /\ inner (queryDiv_of s query) = InnerHTML query
  /\ classList (loadingSpinner_of s) = ["loading-spinner"%string]
  /\ queryField s' = []
  /\ requests s' = requests s ++ [request_of query]
  /\ url (request_of query) = "/query"%string
  /\ method (request_of query) = "POST"%string
  /\ body (request_of query) = stringify (JObj [(lit "query", JStr query)])
  /\ log s' = log s ++ [AppendChild (queryDiv_of s query);
                        AppendChild (loadingSpinner_of s);
                        SetValue []; ScrollToBottom; Fetch (request_of query)].
Proof.
  intros s'. subst s'. rewrite sendQueryToServer_exec. unfold requests. simpl.
  rewrite requests_of_app, stringify_data. simpl.
  repeat split; reflexivity.
Qed.

(** C7. A click on Send, or Enter without shift in the field, when the
    field trims to the empty string: the one entry appended is the error
    entry reading "Error: Please enter a query before sending.", no
    request is sent and no activation of [sendQueryToServer] starts.  When
    the trimmed text is not empty, [sendQueryToServer] is called with it
    in this very step: the query entry and the placeholder are appended
    and the request is sent, with the clock and the pending timeout left
    as they were. *)
Theorem submit_attempt (e : event) (s : state) :
  e = SendClick \/ e = KeyDown (lit "Enter") false ->
  exists s',
    step e s = Some s'
    /\ (trim (queryField s) = [] ->
        messagesContainer s' = messagesContainer s ++ [empty_errorDiv_of s]
        /\ inner (empty_errorDiv_of s)
           = InnerHTML (lit "Error: Please enter a query before sending.")
        /\ classList (empty_errorDiv_of s) = ["error"%string]
        /\ requests s' = requests s
        /\ suspended s' = suspended s)
    /\ (trim (queryField s) <> [] ->
        messagesContainer s'
        = messagesContainer s
          ++ [queryDiv_of s (trim (queryField s)); loadingSpinner_of s]
        /\ requests s' = requests s ++ [request_of (trim (queryField s))]
        /\ clock s' = clock s
        /\ timeouts s' = timeouts s
        /\ inactivityTimer s' = inactivityTimer s).
Proof.
  intros [-> | ->]; [rewrite step_SendClick | rewrite step_Enter];
    eexists; (split; [reflexivity|]); split; intros Hq.
  - apply is_empty_true in Hq. rewrite Hq, empty_query_error_exec.
    unfold requests. simpl. rewrite requests_of_app. simpl.
    rewrite app_nil_r. repeat split; reflexivity.
  - apply is_empty_false in Hq. rewrite Hq, sendQueryToServer_exec.
    unfold requests. simpl. rewrite requests_of_app. simpl.
    repeat split; reflexivity.
  - apply is_empty_true in Hq. rewrite Hq, empty_query_error_exec.
    unfold requests. simpl. rewrite !requests_of_app. simpl.
    rewrite !app_nil_r. repeat split; reflexivity.
  - apply is_empty_false in Hq. rewrite Hq, sendQueryToServer_exec.
    unfold requests. simpl. rewrite !requests_of_app. simpl.
    rewrite app_nil_r. repeat split; reflexivity.
Qed.

(** The scenario of the blank field: two spaces, a click on Send. *)
Lemma submit_attempt_blank_field :
  exists s',
    step SendClick (with_queryField (lit "  ") initial) = Some s'
    /\ messagesContainer s'
       = [mkElement 0 ["error"%string]
            (InnerHTML (lit "Error: Please enter a query before sending."))]
    /\ requests s' = [].
Proof.
  destruct (submit_attempt SendClick (with_queryField (lit "  ") initial)
              (or_introl eq_refl)) as [s' [Hs [He _]]].
  destruct (He eq_refl) as [Hm [_ [_ [Hr _]]]].
  exists s'. split; [exact Hs|]. split; [exact Hm | exact Hr].
Defined.

(** ** Resuming after the request *)

Lemma Some_eq {A} (x y : A) : Some x = Some y -> x = y.
Proof. congruence. Qed.

Lemma step_FetchSettles (sub : nat) (response : option bool) (s : state)
      (a : activation) :
  find_activation sub (suspended s) = Some a ->
  awaiting a = AwaitFetch ->
  step (FetchSettles sub response) s
  = Some (exec (after_fetch sub a response)
            (with_suspended (drop_activation sub (suspended s)) s)).
Proof.
  intros Hf Ha. cbn [step]. rewrite Hf, Ha. reflexivity.
Qed.

Lemma step_JsonSettles (sub : nat) (parsed : option json) (s : state)
      (a : activation) (ok : bool) :
  find_activation sub (suspended s) = Some a ->
  awaiting a = AwaitJson ok ->
  step (JsonSettles sub parsed) s
  = Some (exec (after_json a ok parsed)
            (with_suspended (drop_activation sub (suspended s)) s)).
Proof.
  intros Hf Ha. cbn [step]. rewrite Hf, Ha. reflexivity.
Qed.

Lemma find_activation_dropped (sub : nat) (l : list (nat * activation)) :
  find_activation sub (drop_activation sub l) = None.
Proof.
  induction l as [|[i b] l IH]; simpl; [reflexivity|].
  destruct (i =? sub) eqn:E; simpl; [exact IH|]. rewrite E. exact IH.
Qed.

Lemma step_settlement (e : event) (s s' : state) :
  is_settlement e = true ->
  step e s = Some s' ->
  exists sub a,
    find_activation sub (suspended s) = Some a
    /\ let s0 := with_suspended (drop_activation sub (suspended s)) s in
       (awaiting a = AwaitFetch /\ e = FetchSettles sub None
        /\ s' = exec catch_block s0)
       \/ (exists ok, awaiting a = AwaitFetch /\ e = FetchSettles sub (Some ok)
           /\ s' = with_suspended
                     (drop_activation sub (suspended s)
                      ++ [(sub, mkActivation (caller a) (loadingSpinner a)
                                  (AwaitJson ok))]) s)
       \/ (exists ok, awaiting a = AwaitJson ok /\ e = JsonSettles sub None
           /\ s' = exec catch_block s0)
       \/ (exists result markup,
              awaiting a = AwaitJson true /\ e = JsonSettles sub (Some result)
              /\ response_markup result = Some markup
              /\ s' = exec (after_json a true (Some result)) s0)
       \/ (exists result,
              awaiting a = AwaitJson true /\ e = JsonSettles sub (Some result)
              /\ response_markup result = None
              /\ s' = exec (after_json a true (Some result)) s0)
       \/ (exists errorResult,
              awaiting a = AwaitJson false
              /\ e = JsonSettles sub (Some errorResult)
              /\ s' = exec (after_json a false (Some errorResult)) s0).
Proof.
  destruct e; try discriminate; intros _; simpl;
    destruct (find_activation sub (suspended s)) as [a|] eqn:Hf;
    try discriminate; destruct (awaiting a) as [|ok] eqn:Ha;
    try discriminate; intros [= <-]; exists sub, a; (split; [exact Hf|]).
  - destruct response as [ok|].
    + right; left. exists ok. repeat split; auto.
    + left. repeat split; auto.
  - destruct parsed as [result|].
    + destruct ok.
      * destruct (response_markup result) as [markup|] eqn:Hm.
        -- do 3 right; left. exists result, markup. repeat split; auto.
        -- do 4 right; left. exists result. repeat split; auto.
      * do 5 right. exists result. repeat split; auto.
    + right; right; left. exists ok. repeat split; auto.
Qed.

(** C10. [sendQueryToServer] clears the field ([queryField.value = ""])
    before it calls [fetch]; and when the activation resumes, whatever the
    outcome (a rejected [fetch], a response, a body that does not parse, a
    success, a server-reported error), the field keeps the value it has:
    no assignment to [queryField.value] is among the calls made, so the
    text submitted is not put back. *)
Theorem field_cleared_before_fetch_and_left_alone (s : state) :
  (forall from query,
      queryField (exec (sendQueryToServer from query) s) = []
      /\ exists before between,
          log (exec (sendQueryToServer from query) s)
          = log s ++ before ++ [SetValue []] ++ between
              ++ [Fetch (request_of query)]
          /\ requests_of before = [] /\ requests_of between = [])
  /\ (forall e s',
         is_settlement e = true ->
         step e s = Some s' ->
         queryField s' = queryField s
         /\ exists calls,
             log s' = log s ++ calls /\ forall v, ~ In (SetValue v) calls).
Proof.
  split.
  - intros from query. rewrite sendQueryToServer_exec. simpl.
    split; [reflexivity|].
    exists [AppendChild (queryDiv_of s query); AppendChild (loadingSpinner_of s)],
      [ScrollToBottom].
    repeat split.
  - intros e s' He Hs.
    destruct (step_settlement e s s' He Hs) as [sub [a [Hf H]]].
    cbv zeta in H.
    destruct H as [[_ [_ ->]] | [[ok [_ [_ ->]]] | [[ok [_ [_ ->]]] |
                  [[result [markup [_ [_ [Hm ->]]]]] |
                  [[result [_ [_ [Hm ->]]]] | [errorResult [_ [_ ->]]]]]]]].
    + rewrite catch_block_exec. simpl. split; [reflexivity|].
      eexists. split; [reflexivity|].
      intros v [H|[H|[H|[]]]]; discriminate.
    + simpl. split; [reflexivity|]. exists []. rewrite app_nil_r.
      split; [reflexivity|]. intros v [].
    + rewrite catch_block_exec. simpl. split; [reflexivity|].
      eexists. split; [reflexivity|].
      intros v [H|[H|[H|[]]]]; discriminate.
    + rewrite (after_json_success a result markup _ Hm). simpl.
      split; [reflexivity|]. eexists. split; [reflexivity|].
      intros v [H|[H|[H|[H|[H|[]]]]]]; discriminate.
    + rewrite (after_json_type_error a result _ Hm). simpl.
      split; [reflexivity|]. eexists. split; [reflexivity|].
      intros v [H|[H|[H|[H|[]]]]]; discriminate.
    + rewrite after_json_server_error. simpl.
      split; [reflexivity|]. eexists. split; [reflexivity|].
      intros v [H|[H|[]]]; discriminate.
Qed.

(** A query that fails at the server: the field stays empty. *)
Lemma field_left_alone_after_server_error :
  exists s',
    step (JsonSettles 0 (Some (JObj [(lit "error", JStr (lit "oops"))])))
         (state_after [UserInput (lit "bad"); SendClick;
                       FetchSettles 0 (Some false)])
    = Some s'
    /\ queryField s' = [].
Proof.
  destruct (step (JsonSettles 0 (Some (JObj [(lit "error", JStr (lit "oops"))])))
              (state_after [UserInput (lit "bad"); SendClick;
                            FetchSettles 0 (Some false)]))
    as [s'|] eqn:Hs; [|vm_compute in Hs; discriminate Hs].
  exists s'. split; [reflexivity|].
  exact (proj1 (proj2 (field_cleared_before_fetch_and_left_alone _)
                  (JsonSettles 0 (Some (JObj [(lit "error", JStr (lit "oops"))])))
                  s' eq_refl Hs)).
Defined.

(** ** The error paths *)

(** C6. A response that is not [ok], with a body that parses: the one
    entry appended is the error entry whose text, assigned through
    [innerText], is ["Error: "] followed by
    [JSON.stringify(errorResult, null, 2)].  A rejected [fetch] or a
    rejected [response.json()]: the one entry appended is the generic
    error entry.  On either path the script calls [remove] on no element
    and every entry of the transcript, the loading placeholder among them,
    stays where it is. *)
Theorem error_paths_append_and_keep_placeholder
        (s s' : state) (sub : nat) (a : activation) :
  find_activation sub (suspended s) = Some a ->
  (forall errorResult,
      awaiting a = AwaitJson false ->
      step (JsonSettles sub (Some errorResult)) s = Some s' ->
      messagesContainer s'
      = messagesContainer s ++ [server_errorDiv_of s errorResult]
      /\ inner (server_errorDiv_of s errorResult)
         = InnerText (lit "Error: " ++ stringify_spaces 2 errorResult)
      /\ (forall el, removals el (log s') = removals el (log s))
      /\ find_activation sub (suspended s') = None)
  /\ (forall e,
         e = FetchSettles sub None \/ e = JsonSettles sub None ->
         step e s = Some s' ->
         messagesContainer s' = messagesContainer s ++ [generic_errorDiv_of s]
         /\ inner (generic_errorDiv_of s)
            = InnerHTML (lit "An error occurred while processing your query. Please try again later.")
         /\ (forall el, removals el (log s') = removals el (log s))
         /\ find_activation sub (suspended s') = None).
Proof.
  intros Hf. split.
  - intros errorResult Ha.
    rewrite (step_JsonSettles sub _ s a false Hf Ha).
    intros Hs. apply Some_eq in Hs. subst s'.
    rewrite after_json_server_error. simpl.
    repeat split; auto using find_activation_dropped.
    intros el. rewrite removals_app. simpl. lia.
  - intros e [-> | ->]; cbn [step]; rewrite Hf;
      destruct (awaiting a); try discriminate;
      intros Hs; apply Some_eq in Hs; subst s';
      unfold after_fetch, after_json; rewrite catch_block_exec; simpl;
      repeat split; auto using find_activation_dropped;
      intros el; rewrite removals_app; simpl; lia.
Qed.

(** The scenario of the failing server: the field holds "bad", Send is
    clicked, the server answers 500 with the body [{"error":"oops"}]. *)
Lemma server_error_scenario :
  exists s',
    step (JsonSettles 0 (Some (JObj [(lit "error", JStr (lit "oops"))])))
         (state_after [UserInput (lit "bad"); SendClick;
                       FetchSettles 0 (Some false)])
    = Some s'
    /\ messagesContainer s'
       = [mkElement 0 ["query-message"%string] (InnerHTML (lit "bad"));
          mkElement 1 ["loading-spinner"%string] NoContent;
          mkElement 2 ["error"%string]
            (InnerText (lit "Error: {" ++ [10; 32; 32; 34]%N ++ lit "error"
                        ++ [34]%N ++ lit ": " ++ [34]%N ++ lit "oops"
                        ++ [34; 10]%N ++ lit "}"))].
Proof.
  destruct (step (JsonSettles 0 (Some (JObj [(lit "error", JStr (lit "oops"))])))
              (state_after [UserInput (lit "bad"); SendClick;
                            FetchSettles 0 (Some false)]))
    as [s'|] eqn:Hs; [|vm_compute in Hs; discriminate Hs].
  exists s'. split; [reflexivity|].
  exact (proj1 (proj1 (error_paths_append_and_keep_placeholder
                         (state_after [UserInput (lit "bad"); SendClick;
                                       FetchSettles 0 (Some false)]) s' 0
                         (mkActivation FromClick
                            (mkElement 1 ["loading-spinner"%string] NoContent)
                            (AwaitJson false))
                         eq_refl)
                  _ eq_refl Hs)).
Defined.

(** ** The success path *)

Lemma lines_cons (s : jsstring) : exists l ls, lines s = l :: ls.
Proof.
  induction s as [|c s [l [ls IH]]]; simpl; [now exists [], []|].
  destruct (c =? 10)%N; [now exists [], (lines s)|].
  rewrite IH. now exists (c :: l), ls.
Qed.

(** [replace(/\n/g, "<br>")] puts a [<br>] between the lines of the text. *)
Lemma replace_newlines_lines (s : jsstring) :
  replace_newlines s = join (lit "<br>") (lines s).
Proof.
  induction s as [|c s IH]; simpl; [reflexivity|].
  destruct (c =? 10)%N eqn:E.
  - destruct (lines_cons s) as [l [ls Hl]]. fold (replace_newlines s).
    rewrite IH, Hl. reflexivity.
  - destruct (lines_cons s) as [l [ls Hl]]. fold (replace_newlines s).
    rewrite IH, Hl. destruct ls; reflexivity.
Qed.

(** The lines are the text between the LINE FEEDs: none holds one, and
    joined by LINE FEEDs they give the text back. *)
Lemma lines_split (s : jsstring) :
  Forall (fun l => ~ In 10%N l) (lines s) /\ join [10%N] (lines s) = s.
Proof.
  induction s as [|c s [IHf IHj]]; simpl.
  - split; [repeat constructor; intros []|reflexivity].
  - destruct (c =? 10)%N eqn:E.
    + apply N.eqb_eq in E. subst c. split.
      * constructor; [intros []|exact IHf].
      * destruct (lines_cons s) as [l [ls Hl]]. rewrite Hl in *.
        simpl. f_equal. exact IHj.
    + apply N.eqb_neq in E.
      destruct (lines_cons s) as [l [ls Hl]]. rewrite Hl in *.
      inversion IHf as [|? ? Hl0 Hls]; subst. split.
      * constructor; [|exact Hls]. intros [H|H]; [congruence|exact (Hl0 H)].
      * destruct ls; simpl in *; f_equal; exact IHj.
Qed.

Lemma find_activation_fresh (n : nat) (a : activation) (l : list (nat * activation)) :
  Forall (fun p => fst p < n) l ->
  find_activation n (l ++ [(n, a)]) = Some a
  /\ drop_activation n (l ++ [(n, a)]) = l.
Proof.
  induction l as [|[i b] l IH]; simpl; intros H.
  - rewrite Nat.eqb_refl. simpl. split; reflexivity.
  - inversion H as [|? ? Hi Hl]; subst. simpl in Hi.
    destruct (IH Hl) as [IHf IHd].
    assert ((i =? n) = false) as E by (apply Nat.eqb_neq; lia).
    rewrite E. simpl. rewrite IHd. split; [exact IHf|reflexivity].
Qed.

Lemma detach_fresh (n : nat) (cs : list string) (c : content)
      (before after : list element) :
  Forall (fun el => uid el < n) before ->
  Forall (fun el => uid el < n) after ->
  detach (mkElement n cs c) (before ++ mkElement n cs c :: after)
  = before ++ after.
Proof.
  assert (Hkeep : forall l, Forall (fun el => uid el < n) l ->
                            detach (mkElement n cs c) l = l).
  { induction l as [|x l IH]; simpl; intros H; [reflexivity|].
    inversion H as [|? ? Hx Hl]; subst.
    assert ((uid x =? n) = false) as E by (apply Nat.eqb_neq; lia).
    rewrite E. simpl. f_equal. apply IH, Hl. }
  intros Hb Ha. unfold detach in *. rewrite filter_app.
  rewrite (Hkeep before Hb). cbn [filter uid]. rewrite Nat.eqb_refl.
  cbn [negb]. cbn [uid] in Hkeep. rewrite (Hkeep after Ha). reflexivity.
Qed.

Lemma detach_gone (el : element) (children : list element) :
  ~ In el (detach el children).
Proof.
  unfold detach. intros H. apply filter_In in H. destruct H as [_ H].
  rewrite Nat.eqb_refl in H. discriminate H.
Qed.

(** C5. A response that is [ok], with a body whose [response] is the
    string [text]: the script removes the loading placeholder (one call of
    [remove], after which the placeholder is no longer in the transcript)
    and appends one entry, of class [response], whose markup is [text]
    with a [<br>] in place of every LINE FEED, that is, the lines of
    [text] (what LINE FEEDs separate in it) with a [<br>] between them.  For a submission made by a click
    on Send and answered before anything else happens, the transcript ends
    up with the query entry and then the response entry added. *)
Theorem success_swaps_placeholder_for_response (s : state) :
  reachable s ->
  (forall sub a props text s',
      find_activation sub (suspended s) = Some a ->
      awaiting a = AwaitJson true ->
      get_own (lit "response") props = Some (JStr text) ->
      step (JsonSettles sub (Some (JObj props))) s = Some s' ->
      messagesContainer s'
      = detach (loadingSpinner a) (messagesContainer s) ++ [responseDiv_of s text]
      /\ ~ In (loadingSpinner a) (messagesContainer s')
      /\ removals (loadingSpinner a) (log s')
         = S (removals (loadingSpinner a) (log s))
      /\ classList (responseDiv_of s text) = ["response"%string]
      /\ inner (responseDiv_of s text)
         = InnerHTML (join (lit "<br>") (lines text))
      /\ join [10%N] (lines text) = text)
  /\ (forall props text,
         trim (queryField s) <> [] ->
         get_own (lit "response") props = Some (JStr text) ->
         exists s1 s2 s',
           step SendClick s = Some s1
           /\ step (FetchSettles (next_activation s) (Some true)) s1 = Some s2
           /\ step (JsonSettles (next_activation s) (Some (JObj props))) s2
              = Some s'
           /\ messagesContainer s'
              = messagesContainer s
                ++ [queryDiv_of s (trim (queryField s));
                    mkElement (S (S (next_element s))) ["response"%string]
                      (InnerHTML (replace_newlines text))]).
Proof.
  intros Hr. pose proof (reachable_invariant s Hr) as [Hi Ho Hn He Ha Hsp].
  split.
  - intros sub a props text s' Hf Haw Hg.
    rewrite (step_JsonSettles sub _ s a true Hf Haw).
    intros Hs. apply Some_eq in Hs. subst s'.
    assert (response_markup (JObj props) = Some (replace_newlines text)) as Hm
        by (simpl; rewrite Hg; reflexivity).
    rewrite (after_json_success a _ _ _ Hm). simpl.
    split; [reflexivity|].
    split; [|split; [|split; [reflexivity|split; [|apply lines_split]]]].
    + intros Hin. apply in_app_or in Hin. destruct Hin as [Hin|[Hin|[]]].
      * exact (detach_gone _ _ Hin).
      * apply find_activation_In in Hf.
        pose proof (proj1 (Forall_forall _ _) Hsp _ Hf) as Huid.
        cbn [snd] in Huid. rewrite <- Hin in Huid. simpl in Huid. lia.
    + rewrite removals_app. simpl. rewrite Nat.eqb_refl. lia.
    + unfold responseDiv_of. simpl. rewrite replace_newlines_lines. reflexivity.
  - intros props text Hq Hg. apply is_empty_false in Hq.
    set (n := next_activation s).
    set (a1 := mkActivation FromClick (loadingSpinner_of s) AwaitFetch).
    set (a2 := mkActivation FromClick (loadingSpinner_of s) (AwaitJson true)).
    set (st1 := exec (sendQueryToServer FromClick (trim (queryField s))) s).
    set (st2 := with_suspended (suspended s ++ [(n, a2)]) st1).
    destruct (find_activation_fresh n a1 (suspended s) Ha) as [Hf1 Hd1].
    destruct (find_activation_fresh n a2 (suspended s) Ha) as [Hf2 Hd2].
    assert (st1 = mkState [] (messagesContainer s
                              ++ [queryDiv_of s (trim (queryField s));
                                  loadingSpinner_of s])
                     (mic_active s) (listening s) (inactivityTimer s)
                     (timeouts s) (clock s) (suspended s ++ [(n, a1)])
                     (S (S (next_element s))) (next_timeout s) (S n)
                     (log s ++ [AppendChild (queryDiv_of s (trim (queryField s)));
                                AppendChild (loadingSpinner_of s);
                                SetValue []; ScrollToBottom;
                                Fetch (request_of (trim (queryField s)))]))
      as Hst1 by apply sendQueryToServer_exec.
    exists st1, st2. eexists.
    split; [rewrite step_SendClick, Hq; reflexivity|].
    split.
    + rewrite (step_FetchSettles n (Some true) st1 a1);
        [|rewrite Hst1; exact Hf1|reflexivity].
      unfold st2. rewrite Hst1. cbn [suspended]. rewrite Hd1. reflexivity.
    + split.
      * apply (step_JsonSettles n _ st2 a2 true); [exact Hf2|reflexivity].
      * assert (response_markup (JObj props) = Some (replace_newlines text)) as Hm
            by (simpl; rewrite Hg; reflexivity).
        rewrite (after_json_success _ _ _ _ Hm).
        unfold st2. rewrite Hst1.
        cbn [messagesContainer with_suspended next_element loadingSpinner a2].
        replace (messagesContainer s ++ [queryDiv_of s (trim (queryField s));
                                         loadingSpinner_of s])
          with ((messagesContainer s ++ [queryDiv_of s (trim (queryField s))])
                ++ loadingSpinner_of s :: [])
          by (rewrite <- app_assoc; reflexivity).
        unfold loadingSpinner_of.
        rewrite detach_fresh.
        -- rewrite app_nil_r, <- app_assoc. reflexivity.
        -- bounded.
        -- constructor.
Qed.

(** The scenario of the greeting: the field holds "hello", Send is
    clicked, the server answers with the two lines "hi" and "there". *)
Lemma success_scenario :
  exists s1 s2 s',
    step SendClick (state_after [UserInput (lit "hello")]) = Some s1
    /\ step (FetchSettles 0 (Some true)) s1 = Some s2
    /\ step (JsonSettles 0
               (Some (JObj [(lit "response",
                             JStr (lit "hi" ++ [10%N] ++ lit "there"))]))) s2
       = Some s'
    /\ messagesContainer s'
       = [mkElement 0 ["query-message"%string] (InnerHTML (lit "hello"));
          mkElement 2 ["response"%string] (InnerHTML (lit "hi<br>there"))].
Proof.
  assert (reachable (state_after [UserInput (lit "hello")])) as Hr
      by (apply reachable_state_after; vm_compute; discriminate).
  assert (trim (queryField (state_after [UserInput (lit "hello")])) <> []) as Hq
      by (vm_compute; discriminate).
  exact (proj2 (success_swaps_placeholder_for_response _ Hr)
           [(lit "response", JStr (lit "hi" ++ [10%N] ++ lit "there"))]
           (lit "hi" ++ [10%N] ++ lit "there") Hq eq_refl).
Defined.

(** ** How the entries get their content *)

Lemma step_KeyDown (key : jsstring) (shiftKey : bool) (s : state) :
  step (KeyDown key shiftKey) s
  = Some (if JS.eqb key (lit "Enter") && negb shiftKey
          then record PreventDefault
                 (if is_empty (trim (queryField s)) then exec empty_query_error s
                  else exec (sendQueryToServer FromKeydown (trim (queryField s))) s)
          else s).
Proof.
  unfold step, query_keydown. destruct (_ && _); [|reflexivity].
  unfold exec, bind, get_value, preventDefault. cbn [fst snd].
  destruct (is_empty _).
  - destruct (empty_query_error s). reflexivity.
  - destruct (sendQueryToServer _ _ s). reflexivity.
Qed.

(** An element that is in the transcript after a step and was not before
    is one of those the step has appended. *)
Lemma new_entry (el : element) (old appended : list element) :
  In el (old ++ appended) -> ~ In el old -> In el appended.
Proof.
  intros Hin Hold. apply in_app_or in Hin. destruct Hin; [contradiction|assumption].
Qed.

Lemma new_entry_detach (el x : element) (old appended : list element) :
  In el (detach x old ++ appended) -> ~ In el old -> In el appended.
Proof.
  intros Hin Hold. apply in_app_or in Hin. destruct Hin as [Hin|Hin]; [|assumption].
  apply filter_In in Hin. destruct Hin. contradiction.
Qed.

(** C9. The query entry made by [sendQueryToServer] gets the query as it
    is through [innerHTML], so markup in it reaches the parser; the
    empty-query error and the error of the [catch] block get their
    literal texts through [innerHTML] too.  The entry for a
    server-reported error gets ["Error: "] and the serialized payload
    through [innerText], and it is the only one: an entry that a step
    adds to the transcript with a content assigned through [innerText] is
    the error entry of a response that is not [ok]. *)
Theorem content_is_markup_except_server_error (s : state) :
  (forall from query,
      In (mkElement (next_element s) ["query-message"%string] (InnerHTML query))
         (messagesContainer (exec (sendQueryToServer from query) s)))
  /\ In (mkElement (next_element s) ["error"%string]
           (InnerHTML (lit "Error: Please enter a query before sending.")))
        (messagesContainer (exec empty_query_error s))
  /\ In (mkElement (next_element s) ["error"%string]
           (InnerHTML (lit "An error occurred while processing your query. Please try again later.")))
        (messagesContainer (exec catch_block s))
  /\ (forall a errorResult,
         In (mkElement (next_element s) ["error"%string]
               (InnerText (lit "Error: " ++ stringify_spaces 2 errorResult)))
            (messagesContainer (exec (after_json a false (Some errorResult)) s)))
  /\ (forall e s' el text,
         step e s = Some s' ->
         In el (messagesContainer s') ->
         ~ In el (messagesContainer s) ->
         inner el = InnerText text ->
         exists sub a errorResult,
           e = JsonSettles sub (Some errorResult)
           /\ find_activation sub (suspended s) = Some a
           /\ awaiting a = AwaitJson false
           /\ el = server_errorDiv_of s errorResult).
Proof.
  split; [|split; [|split; [|split]]].
  - intros from query. rewrite sendQueryToServer_exec. simpl.
    apply in_or_app. right. left. reflexivity.
  - rewrite empty_query_error_exec. simpl. apply in_or_app. right. left. reflexivity.
  - rewrite catch_block_exec. simpl. apply in_or_app. right. left. reflexivity.
  - intros a errorResult. rewrite after_json_server_error. simpl.
    apply in_or_app. right. left. reflexivity.
  - intros e s' el text Hs Hin Hold Htext.
    destruct (is_settlement e) eqn:He.
    + destruct (step_settlement e s s' He Hs) as [sub [a [Hf H]]].
      cbv zeta in H.
      destruct H as [[_ [_ ->]] | [[ok [_ [_ ->]]] | [[ok [_ [_ ->]]] |
                    [[result [markup [_ [_ [Hm ->]]]]] |
                    [[result [_ [_ [Hm ->]]]] | [errorResult [Ha [-> ->]]]]]]]].
      * rewrite catch_block_exec in Hin. simpl in Hin.
        destruct (new_entry _ _ _ Hin Hold) as [<-|[]]. discriminate Htext.
      * simpl in Hin. contradiction.
      * rewrite catch_block_exec in Hin. simpl in Hin.
        destruct (new_entry _ _ _ Hin Hold) as [<-|[]]. discriminate Htext.
      * rewrite (after_json_success a result markup _ Hm) in Hin. simpl in Hin.
        destruct (new_entry_detach _ _ _ _ Hin Hold) as [<-|[]]. discriminate Htext.
      * rewrite (after_json_type_error a result _ Hm) in Hin. simpl in Hin.
        destruct (new_entry_detach _ _ _ _ Hin Hold) as [<-|[]]. discriminate Htext.
      * rewrite after_json_server_error in Hin. simpl in Hin.
        destruct (new_entry _ _ _ Hin Hold) as [<-|[]].
        exists sub, a, errorResult. repeat split; auto.
    + exfalso. destruct e; try discriminate He.
      * apply Some_eq in Hs. subst s'. contradiction.
      * apply Some_eq in Hs. subst s'. contradiction.
      * cbn [step] in Hs. apply Some_eq in Hs. subst s'.
        rewrite commands_query_exec in Hin. contradiction.
      * destruct (step_TimerFire id s s' Hs) as [due [_ [_ ->]]].
        destruct (is_empty _); [contradiction|].
        rewrite sendQueryToServer_exec in Hin. simpl in Hin.
        destruct (new_entry _ _ _ Hin Hold) as [<-|[<-|[]]]; discriminate Htext.
      * cbn [step] in Hs. apply Some_eq in Hs. subst s'.
        rewrite voiceButton_click_exec in Hin. contradiction.
      * rewrite step_SendClick in Hs. apply Some_eq in Hs. subst s'.
        destruct (is_empty _).
        -- rewrite empty_query_error_exec in Hin. simpl in Hin.
           destruct (new_entry _ _ _ Hin Hold) as [<-|[]]. discriminate Htext.
        -- rewrite sendQueryToServer_exec in Hin. simpl in Hin.
           destruct (new_entry _ _ _ Hin Hold) as [<-|[<-|[]]]; discriminate Htext.
      * rewrite step_KeyDown in Hs. apply Some_eq in Hs. subst s'.
        destruct (_ && _); [|contradiction].
        destruct (is_empty _).
        -- rewrite empty_query_error_exec in Hin. simpl in Hin.
           destruct (new_entry _ _ _ Hin Hold) as [<-|[]]. discriminate Htext.
        -- rewrite sendQueryToServer_exec in Hin. simpl in Hin.
           destruct (new_entry _ _ _ Hin Hold) as [<-|[<-|[]]]; discriminate Htext.
Qed.

(** A query with markup in it, and the server's complaint about it: the
    entry with text content is the one for the complaint. *)
Lemma content_of_server_error_entry :
  exists s' sub a errorResult,
    step (JsonSettles 0 (Some (JObj [(lit "error", JStr (lit "<i>no</i>"))])))
         (state_after [UserInput (lit "<b>bold</b>"); SendClick;
                       FetchSettles 0 (Some false)])
    = Some s'
    /\ JsonSettles 0 (Some (JObj [(lit "error", JStr (lit "<i>no</i>"))]))
       = JsonSettles sub (Some errorResult)
    /\ awaiting a = AwaitJson false
    /\ In (mkElement 0 ["query-message"%string] (InnerHTML (lit "<b>bold</b>")))
          (messagesContainer s').
Proof.
  destruct (step (JsonSettles 0 (Some (JObj [(lit "error", JStr (lit "<i>no</i>"))])))
              (state_after [UserInput (lit "<b>bold</b>"); SendClick;
                            FetchSettles 0 (Some false)]))
    as [s'|] eqn:Hs; [|vm_compute in Hs; discriminate Hs].
  pose proof Hs as Hs'. vm_compute in Hs'. apply Some_eq in Hs'.
  assert (In (mkElement 2 ["error"%string]
                (InnerText (lit "Error: "
                            ++ stringify_spaces 2
                                 (JObj [(lit "error", JStr (lit "<i>no</i>"))]))))
             (messagesContainer s')) as Hin
      by (rewrite <- Hs'; vm_compute; auto).
  assert (~ In (mkElement 2 ["error"%string]
                  (InnerText (lit "Error: "
                              ++ stringify_spaces 2
                                   (JObj [(lit "error", JStr (lit "<i>no</i>"))]))))
               (messagesContainer
                  (state_after [UserInput (lit "<b>bold</b>"); SendClick;
                                FetchSettles 0 (Some false)]))) as Hold
      by (vm_compute; intros [H|[H|[]]]; discriminate H).
  destruct (proj2 (proj2 (proj2 (proj2
              (content_is_markup_except_server_error
                 (state_after [UserInput (lit "<b>bold</b>"); SendClick;
                               FetchSettles 0 (Some false)])))))
              _ s' _ _ Hs Hin Hold eq_refl)
    as [sub [a [errorResult [He [_ [Ha _]]]]]].
  exists s', sub, a, errorResult. repeat split; auto.
  rewrite <- Hs'. vm_compute. auto.
Defined.

(** ** The loading placeholder on the error paths *)

(** C1. The claim fails on the two error paths.  A query "bad" is sent by
    a click; once with a response that is not [ok] and carries
    [{"error":"oops"}], once with a [fetch] that is rejected.  Either way
    the activation has ended, the placeholder made for it is still in the
    transcript, and [remove] was never called on it. *)
Theorem placeholder_left_behind_on_error :
  (exists s,
      run [UserInput (lit "bad"); SendClick; FetchSettles 0 (Some false);
           JsonSettles 0 (Some (JObj [(lit "error", JStr (lit "oops"))]))]
          initial = Some s
      /\ suspended s = []
      /\ placeholders s = [mkElement 1 ["loading-spinner"%string] NoContent]
      /\ removals (mkElement 1 ["loading-spinner"%string] NoContent) (log s) = 0)
  /\ (exists s,
         run [UserInput (lit "bad"); SendClick; FetchSettles 0 None] initial
         = Some s
         /\ suspended s = []
         /\ placeholders s = [mkElement 1 ["loading-spinner"%string] NoContent]
         /\ removals (mkElement 1 ["loading-spinner"%string] NoContent) (log s) = 0).
Proof.
  split; eexists; (split; [vm_compute; reflexivity|]); vm_compute;
    repeat split.
Qed.

(** ** The listening state *)

Lemma step_listening (e : event) (s s' : state) :
  step e s = Some s' ->
  (e = VoiceClick /\ listening s' = negb (listening s)
   /\ mic_active s' = negb (listening s))
  \/ ((exists a, successful_response e s a)
      /\ listening s' = false /\ mic_active s' = false)
  \/ (e <> VoiceClick /\ (forall a, ~ successful_response e s a)
      /\ listening s' = listening s /\ mic_active s' = mic_active s).
Proof.
  intros Hs. destruct (is_settlement e) eqn:He.
  - destruct (step_settlement e s s' He Hs) as [sub [a [Hf H]]].
    cbv zeta in H.
    destruct H as [[_ [-> ->]] | [[ok [_ [-> ->]]] | [[ok [_ [-> ->]]] |
                  [[result [markup [Ha [-> [Hm ->]]]]] |
                  [[result [Ha [-> [Hm ->]]]] | [errorResult [Ha [-> ->]]]]]]]].
    + right; right. rewrite catch_block_exec. simpl.
      repeat split; try discriminate.
      intros b [sub' [r [m [H _]]]]. discriminate H.
    + right; right. simpl. repeat split; try discriminate.
      intros b [sub' [r [m [H _]]]]. discriminate H.
    + right; right. rewrite catch_block_exec. simpl.
      repeat split; try discriminate.
      intros b [sub' [r [m [H _]]]]. discriminate H.
    + right; left. rewrite (after_json_success a result markup _ Hm). simpl.
      split; [|split; reflexivity].
      exists a, sub, result, markup. repeat split; assumption.
    + right; right. rewrite (after_json_type_error a result _ Hm). simpl.
      repeat split; try discriminate.
      intros b [sub' [r [m [H [_ [_ Hm']]]]]].
      injection H as <- <-. congruence.
    + right; right. rewrite after_json_server_error. simpl.
      repeat split; try discriminate.
      intros b [sub' [r [m [H [Hf' [Hb _]]]]]].
      injection H as <- <-. congruence.
  - assert (forall a, ~ successful_response e s a) as Hno.
    { intros a [sub [r [m [H _]]]]. subst e. discriminate He. }
    destruct e; try discriminate He.
    + apply Some_eq in Hs. subst s'. right; right.
      repeat split; try discriminate; auto.
    + apply Some_eq in Hs. subst s'. right; right.
      repeat split; try discriminate; auto.
    + cbn [step] in Hs. apply Some_eq in Hs. subst s'. right; right.
      rewrite commands_query_exec. repeat split; try discriminate; auto.
    + destruct (step_TimerFire id s s' Hs) as [due [_ [_ ->]]]. right; right.
      destruct (is_empty _); [|rewrite sendQueryToServer_exec];
        repeat split; try discriminate; auto.
    + cbn [step] in Hs. apply Some_eq in Hs. subst s'. left.
      rewrite voiceButton_click_exec. repeat split.
    + rewrite step_SendClick in Hs. apply Some_eq in Hs. subst s'. right; right.
      destruct (is_empty _);
        [rewrite empty_query_error_exec | rewrite sendQueryToServer_exec];
        repeat split; try discriminate; auto.
    + rewrite step_KeyDown in Hs. apply Some_eq in Hs. subst s'. right; right.
      destruct (_ && _); [|repeat split; try discriminate; auto].
      destruct (is_empty _);
        [rewrite empty_query_error_exec | rewrite sendQueryToServer_exec];
        repeat split; try discriminate; auto.
Qed.

(** C2, as stated, fails: with the engine listening, a query typed into
    the field and sent by a click on Send is answered successfully, and
    the listening state goes from Listening to Idle although the
    submission came from the click handler, not from speech. *)
Lemma typed_query_success_stops_listening :
  exists s s' a,
    run [VoiceClick; UserInput (lit "hi"); SendClick; FetchSettles 0 (Some true)]
        initial = Some s
    /\ successful_response
         (JsonSettles 0 (Some (JObj [(lit "response", JStr (lit "yo"))]))) s a
    /\ caller a = FromClick
    /\ step (JsonSettles 0 (Some (JObj [(lit "response", JStr (lit "yo"))]))) s
       = Some s'
    /\ listening s = true
    /\ listening s' = false.
Proof.
  eexists. eexists. eexists. split; [vm_compute; reflexivity|]. split.
  - eexists. eexists. eexists.
    split; [reflexivity|]. split; [vm_compute; reflexivity|].
    split; [reflexivity|]. vm_compute. reflexivity.
  - split; [reflexivity|]. split; [vm_compute; reflexivity|].
    split; reflexivity.
Qed.

(** C2, amended.  The listening state is a boolean, Idle or Listening.
    A step that takes it from Listening to Idle is a click on the voice
    button or the successful response to a submission, whichever handler
    made that submission: every successful response stops the engine and
    clears the indicator.  A step that takes it from Idle to Listening is
    a click on the voice button. *)
Theorem listening_transitions (e : event) (s s' : state) :
  step e s = Some s' ->
  (listening s' = true \/ listening s' = false)
  /\ (listening s = true -> listening s' = false ->
      e = VoiceClick \/ exists a, successful_response e s a)
  /\ (listening s = false -> listening s' = true -> e = VoiceClick)
  /\ (forall a, successful_response e s a ->
                listening s' = false /\ mic_active s' = false).
Proof.
  intros Hs.
  destruct (step_listening e s s' Hs)
    as [[-> [Hl Hm]] | [[[a Ha] [Hl Hm]] | [Hne [Hno [Hl Hm]]]]].
  - split; [destruct (listening s'); auto|].
    split; [auto|]. split; [auto|].
    intros a [sub [r [m [H _]]]]. discriminate H.
  - split; [auto|]. split; [eauto|]. split; [congruence|]. auto.
  - split; [destruct (listening s'); auto|].
    split; [congruence|]. split; [congruence|].
    intros a Ha. destruct (Hno a Ha).
Qed.

(** The response to a typed query, with the engine listening. *)
Lemma listening_transitions_typed_query :
  exists s',
    step (JsonSettles 0 (Some (JObj [(lit "response", JStr (lit "yo"))])))
         (state_after [VoiceClick; UserInput (lit "hi"); SendClick;
                       FetchSettles 0 (Some true)])
    = Some s'
    /\ listening s' = false /\ mic_active s' = false.
Proof.
  destruct (step (JsonSettles 0 (Some (JObj [(lit "response", JStr (lit "yo"))])))
              (state_after [VoiceClick; UserInput (lit "hi"); SendClick;
                            FetchSettles 0 (Some true)]))
    as [s'|] eqn:Hs; [|vm_compute in Hs; discriminate Hs].
  exists s'. split; [reflexivity|].
  apply (proj2 (proj2 (proj2 (listening_transitions _ _ s' Hs)))
           (mkActivation FromClick
              (mkElement 1 ["loading-spinner"%string] NoContent)
              (AwaitJson true))).
  exists 0, (JObj [(lit "response", JStr (lit "yo"))]), (lit "yo").
  repeat split.
Defined.

(** ** The voice button *)

(** C8. A click on the voice button while the engine listens aborts it
    and takes [mic-active] off the button's image; a click while it does
    not listen starts it, continuous and without restart, and puts
    [mic-active] on.  Two clicks in a row leave the listening state and
    the indicator as they were; when the engine is idle the indicator is
    off, so from Idle two clicks lead back to Idle with the indicator
    off. *)
Theorem voice_toggle (s : state) :
  reachable s ->
  (exists s1,
      step VoiceClick s = Some s1
      /\ (listening s = true ->
          listening s1 = false /\ mic_active s1 = false
          /\ log s1 = log s ++ [AnnyangAbort; MicActiveRemove])
      /\ (listening s = false ->
          listening s1 = true /\ mic_active s1 = true
          /\ log s1 = log s ++ [AnnyangStart true false; MicActiveAdd])
      /\ exists s2,
          step VoiceClick s1 = Some s2
          /\ listening s2 = listening s
          /\ mic_active s2 = mic_active s)
  /\ (listening s = false -> mic_active s = false).
Proof.
  intros Hr. pose proof (reachable_invariant s Hr) as [Hi _ _ _ _ _].
  split; [|congruence].
  eexists. cbn [step]. split; [reflexivity|].
  rewrite voiceButton_click_exec. simpl.
  split; [intros ->; repeat split|].
  split; [intros ->; repeat split|].
  eexists. split; [reflexivity|].
  rewrite voiceButton_click_exec. simpl.
  rewrite Hi, negb_involutive. split; reflexivity.
Qed.

(** Two clicks on the page as loaded. *)
Lemma voice_toggle_from_idle :
  exists s1 s2,
    step VoiceClick initial = Some s1
    /\ listening s1 = true /\ mic_active s1 = true
    /\ step VoiceClick s1 = Some s2
    /\ listening s2 = false /\ mic_active s2 = false.
Proof.
  assert (reachable initial) as Hr by (exists []; reflexivity).
  destruct (proj1 (voice_toggle initial Hr)) as [s1 [H1 [_ [Hoff [s2 [H2 [Hl Hm]]]]]]].
  destruct (Hoff eq_refl) as [Hl1 [Hm1 _]].
  exists s1, s2. repeat split; assumption.
Defined.

(** ** The inactivity timer *)

(** A step other than a fragment sets no timeout, and only [Elapse] moves
    the clock. *)
Lemma step_without_speech (e : event) (s s' : state) :
  is_fragment e = false ->
  step e s = Some s' ->
  clock s' = clock s + elapsed [e]
  /\ forall t, In t (timeouts s') -> In t (timeouts s).
Proof.
  intros Hfr Hs.
  assert (forall id t, In t (cancel id (timeouts s)) -> In t (timeouts s)) as Hc
      by (intros id t H; apply filter_In in H; apply H).
  destruct (is_settlement e) eqn:He.
  - assert (elapsed [e] = 0) as -> by (destruct e; try discriminate; reflexivity).
    destruct (step_settlement e s s' He Hs) as [sub [a [Hf H]]].
    cbv zeta in H.
    destruct H as [[_ [_ ->]] | [[ok [_ [_ ->]]] | [[ok [_ [_ ->]]] |
                  [[result [markup [_ [_ [Hm ->]]]]] |
                  [[result [_ [_ [Hm ->]]]] | [errorResult [_ [_ ->]]]]]]]].
    + rewrite catch_block_exec. simpl. split; [lia|auto].
    + simpl. split; [lia|auto].
    + rewrite catch_block_exec. simpl. split; [lia|auto].
    + rewrite (after_json_success a result markup _ Hm). simpl. split; [lia|auto].
    + rewrite (after_json_type_error a result _ Hm). simpl. split; [lia|auto].
    + rewrite after_json_server_error. simpl. split; [lia|auto].
  - destruct e; try discriminate.
    + apply Some_eq in Hs. subst s'. simpl. split; [lia|auto].
    + apply Some_eq in Hs. subst s'. simpl. split; [lia|auto].
    + destruct (step_TimerFire id s s' Hs) as [due [_ [_ ->]]].
      destruct (is_empty _); [|rewrite sendQueryToServer_exec];
        simpl; (split; [lia|apply Hc]).
    + cbn [step] in Hs. apply Some_eq in Hs. subst s'.
      rewrite voiceButton_click_exec. simpl. split; [lia|auto].
    + rewrite step_SendClick in Hs. apply Some_eq in Hs. subst s'.
      destruct (is_empty _);
        [rewrite empty_query_error_exec | rewrite sendQueryToServer_exec];
        simpl; (split; [lia|auto]).
    + rewrite step_KeyDown in Hs. apply Some_eq in Hs. subst s'.
      destruct (_ && _); [|simpl; split; [lia|auto]].
      destruct (is_empty _);
        [rewrite empty_query_error_exec | rewrite sendQueryToServer_exec];
        simpl; (split; [lia|auto]).
Qed.

Lemma run_without_speech (tr : list event) (s s' : state) :
  silent tr = true ->
  run tr s = Some s' ->
  clock s' = clock s + elapsed tr
  /\ forall t, In t (timeouts s') -> In t (timeouts s).
Proof.
  revert s. induction tr as [|e tr IH]; simpl; intros s Hsil Hrun.
  - apply Some_eq in Hrun. subst s'. split; [lia|auto].
  - apply andb_prop in Hsil. destruct Hsil as [He Hsil].
    apply negb_true_iff in He.
    destruct (step e s) as [s1|] eqn:Hs; [|discriminate].
    destruct (step_without_speech e s s1 He Hs) as [Hc Ht].
    destruct (IH s1 Hsil Hrun) as [Hc' Ht'].
    split; [|auto].
    rewrite Hc', Hc. simpl. destruct e; simpl; lia.
Qed.

(** C3. In every state the page can be in, at most one timeout is
    pending.  A fragment puts itself into the field, cancels the timeout
    [inactivityTimer] names and sets a new one for [silenceDelay] = 3000
    ms, which is then the only one pending; it sends no request.  As long
    as less than 3000 ms have passed since the fragment and no further
    fragment has come, whatever else happens, no timeout can expire.  When
    a timeout expires, none is pending any more, and the callback calls
    [sendQueryToServer] once with the trimmed field if that is not empty
    (one request, for that text) and changes nothing if it is. *)
Theorem debounce (s : state) :
  reachable s ->
  List.length (timeouts s) <= 1
  /\ (forall query,
         exists s',
           step (Fragment query) s = Some s'
           /\ queryField s' = query
           /\ timeouts s' = [(next_timeout s, clock s + 3000)]
           /\ inactivityTimer s' = Some (next_timeout s)
           /\ log s' = log s ++ [SetValue query;
                                 ClearTimeout (inactivityTimer s);
                                 SetTimeout (next_timeout s) 3000]
           /\ requests s' = requests s
           /\ forall tr s'' id,
               silent tr = true ->
               elapsed tr < 3000 ->
               run tr s' = Some s'' ->
               step (TimerFire id) s'' = None)
  /\ (forall id s',
         step (TimerFire id) s = Some s' ->
         timeouts s' = []
         /\ (trim (queryField s) <> [] ->
             s' = exec (sendQueryToServer FromTimer (trim (queryField s)))
                    (with_timeouts [] s)
             /\ requests s' = requests s ++ [request_of (trim (queryField s))])
         /\ (trim (queryField s) = [] -> s' = with_timeouts [] s)).
Proof.
  intros Hr. pose proof (reachable_invariant s Hr) as Hinv.
  split; [apply Hinv|]. split.
  - intros query. eexists. split; [reflexivity|].
    pose proof (commands_query_timeouts query s Hinv) as Ht.
    split; [rewrite commands_query_exec; reflexivity|].
    split; [exact Ht|].
    split; [rewrite commands_query_exec; reflexivity|].
    split; [rewrite commands_query_exec; reflexivity|].
    split.
    { rewrite commands_query_exec. unfold requests. simpl.
      rewrite requests_of_app. simpl. apply app_nil_r. }
    intros tr s'' id Hsil Hel Hrun.
    destruct (step (TimerFire id) s'') as [s3|] eqn:Hfire; [|reflexivity].
    exfalso.
    destruct (step_TimerFire id s'' s3 Hfire) as [due [Hin [Hdue _]]].
    destruct (run_without_speech tr _ s'' Hsil Hrun) as [Hc Hsub].
    apply Hsub in Hin. rewrite Ht in Hin.
    destruct Hin as [Hin|[]]. injection Hin as _ <-.
    rewrite commands_query_exec in Hc. simpl in Hc.
    unfold silenceDelay in Hdue. lia.
  - intros id s' Hs.
    destruct (step_TimerFire id s s' Hs) as [due [Hin [_ ->]]].
    assert (cancel id (timeouts s) = []) as Hc.
    { destruct Hinv as [_ Ho _ _ _ _].
      destruct (timeouts s) as [|t [|? ?]]; simpl in Ho; try lia; [destruct Hin|].
      destruct Hin as [->|[]]. unfold cancel. simpl.
      rewrite Nat.eqb_refl. reflexivity. }
    rewrite Hc. split; [|split].
    + destruct (is_empty _); [|rewrite sendQueryToServer_exec]; reflexivity.
    + intros Hq. apply is_empty_false in Hq. rewrite Hq.
      split; [reflexivity|].
      rewrite sendQueryToServer_exec. unfold requests. simpl.
      rewrite requests_of_app. reflexivity.
    + intros Hq. apply is_empty_true in Hq. rewrite Hq. reflexivity.
Qed.

(** Speech with a pause of two seconds in it, then silence: the timeout
    of the first fragment is gone, that of the second cannot expire after
    2999 ms, and at 3000 ms it sends the text of the second fragment. *)
Lemma debounce_two_fragments :
  List.length (timeouts (state_after [VoiceClick; Fragment (lit "what is");
                                      Elapse 2000])) <= 1
  /\ (exists s',
         step (Fragment (lit "what is x"))
              (state_after [VoiceClick; Fragment (lit "what is"); Elapse 2000])
         = Some s'
         /\ timeouts s' = [(2, 5000)]
         /\ run [Elapse 2999; TimerFire 2] s' = None)
  /\ (exists s',
         step (TimerFire 2)
              (state_after [VoiceClick; Fragment (lit "what is"); Elapse 2000;
                            Fragment (lit " what is x "); Elapse 3000])
         = Some s'
         /\ requests s' = [request_of (lit "what is x")]).
Proof.
  assert (reachable (state_after [VoiceClick; Fragment (lit "what is");
                                  Elapse 2000])) as Hr
      by (apply reachable_state_after; vm_compute; discriminate).
  assert (reachable (state_after [VoiceClick; Fragment (lit "what is"); Elapse 2000;
                                  Fragment (lit " what is x "); Elapse 3000])) as Hr'
      by (apply reachable_state_after; vm_compute; discriminate).
  destruct (debounce _ Hr) as [Hone [Hfrag _]].
  destruct (debounce _ Hr') as [_ [_ Hfire]].
  split; [exact Hone|]. split.
  - destruct (Hfrag (lit "what is x")) as [s' [Hs [_ [Ht [_ [_ [_ Hquiet]]]]]]].
    exists s'. split; [exact Hs|]. split; [exact Ht|].
    change (run [Elapse 2999; TimerFire 2] s')
      with (match step (TimerFire 2) (with_clock (clock s' + 2999) s') with
            | Some s2 => Some s2
            | None => None
            end).
    rewrite (Hquiet [Elapse 2999] (with_clock (clock s' + 2999) s') 2
               eq_refl); [reflexivity|simpl; lia|reflexivity].
  - destruct (step (TimerFire 2)
                (state_after [VoiceClick; Fragment (lit "what is"); Elapse 2000;
                              Fragment (lit " what is x "); Elapse 3000]))
      as [s'|] eqn:Hs; [|vm_compute in Hs; discriminate Hs].
    exists s'. split; [reflexivity|].
    destruct (Hfire 2 s' Hs) as [_ [Hsend _]].
    apply Hsend. vm_compute. discriminate.
Defined.

(** ** What one step does to the transcript, the activations, the requests *)

Lemma requests_exec_send (from : call_site) (query : jsstring) (s : state) :
  requests (exec (sendQueryToServer from query) s)
  = requests s ++ [request_of query].
Proof.
  rewrite sendQueryToServer_exec. unfold requests. simpl.
  rewrite requests_of_app. reflexivity.
Qed.

Lemma requests_exec_empty (s : state) :
  requests (exec empty_query_error s) = requests s.
Proof.
  rewrite empty_query_error_exec. unfold requests. simpl.
  rewrite requests_of_app. apply app_nil_r.
Qed.

Lemma requests_exec_catch (s : state) :
  requests (exec catch_block s) = requests s.
Proof.
  rewrite catch_block_exec. unfold requests. simpl.
  rewrite requests_of_app. apply app_nil_r.
Qed.

Lemma step_shape (e : event) (s s' : state) :
  step e s = Some s' -> shape e s s'.
Proof.
  intros Hs. destruct (is_settlement e) eqn:He.
  - destruct (step_settlement e s s' He Hs) as [sub [a [Hf H]]].
    cbv zeta in H.
    destruct H as [[Ha [-> ->]] | [[ok [Ha [-> ->]]] | [[ok [Ha [-> ->]]] |
                  [[result [markup [Ha [-> [Hm ->]]]]] |
                  [[result [Ha [-> [Hm ->]]]] | [errorResult [Ha [-> ->]]]]]]]].
    + apply (Failed _ _ _ sub a (generic_errorDiv_of s)); auto;
        try (rewrite catch_block_exec; reflexivity).
      exact (requests_exec_catch _).
    + apply (Answered _ _ _ sub a ok); auto.
    + apply (Failed _ _ _ sub a (generic_errorDiv_of s)); auto;
        try (rewrite catch_block_exec; reflexivity).
      exact (requests_exec_catch _).
    + apply (Unveiled _ _ _ sub a result
               (mkElement (next_element s) ["response"%string] (InnerHTML markup)));
        auto; rewrite (after_json_success a result markup _ Hm); simpl;
        try reflexivity; try lia.
      unfold requests. simpl. rewrite requests_of_app. apply app_nil_r.
    + apply (Unveiled _ _ _ sub a result
               (mkElement (S (next_element s)) ["error"%string]
                  (inner (generic_errorDiv_of s))));
        auto; rewrite (after_json_type_error a result _ Hm); simpl;
        try reflexivity; try lia.
      unfold requests. simpl. rewrite requests_of_app. apply app_nil_r.
    + apply (Failed _ _ _ sub a (server_errorDiv_of s errorResult)); auto;
        try (rewrite after_json_server_error; reflexivity).
      rewrite after_json_server_error. unfold requests. simpl.
      rewrite requests_of_app. apply app_nil_r.
  - destruct e; try discriminate He.
    + apply Some_eq in Hs. subst s'. apply Untouched; reflexivity.
    + apply Some_eq in Hs. subst s'. apply Untouched; reflexivity.
    + cbn [step] in Hs. apply Some_eq in Hs. subst s'.
      apply Untouched; rewrite commands_query_exec; try reflexivity.
      unfold requests. simpl. rewrite requests_of_app. apply app_nil_r.
    + destruct (step_TimerFire id s s' Hs) as [due [_ [_ ->]]].
      destruct (is_empty (trim (queryField s))) eqn:Hq.
      * apply Untouched; reflexivity.
      * apply is_empty_false in Hq.
        apply (Submitted _ _ _ FromTimer); eauto;
          try (rewrite sendQueryToServer_exec; reflexivity).
        apply (requests_exec_send FromTimer (trim (queryField s))
                 (with_timeouts (cancel id (timeouts s)) s)).
    + cbn [step] in Hs. apply Some_eq in Hs. subst s'.
      apply Untouched; rewrite voiceButton_click_exec; try reflexivity.
      unfold requests. simpl. rewrite requests_of_app.
      destruct (listening s); apply app_nil_r.
    + rewrite step_SendClick in Hs. apply Some_eq in Hs. subst s'.
      destruct (is_empty (trim (queryField s))) eqn:Hq.
      * apply is_empty_true in Hq.
        apply Refused; auto; try (rewrite empty_query_error_exec; reflexivity).
        apply requests_exec_empty.
      * apply is_empty_false in Hq.
        apply (Submitted _ _ _ FromClick); auto;
          try (rewrite sendQueryToServer_exec; reflexivity).
        apply requests_exec_send.
    + rewrite step_KeyDown in Hs. apply Some_eq in Hs. subst s'.
      destruct (JS.eqb key (lit "Enter") && negb shiftKey) eqn:Hk;
        [|apply Untouched; reflexivity].
      apply andb_prop in Hk. destruct Hk as [_ Hsh].
      apply negb_true_iff in Hsh. subst shiftKey.
      destruct (is_empty (trim (queryField s))) eqn:Hq.
      * apply is_empty_true in Hq.
        apply Refused; eauto; try (rewrite empty_query_error_exec; reflexivity).
        unfold requests. cbn [log record]. rewrite requests_of_app.
        fold (requests (exec empty_query_error s)).
        rewrite requests_exec_empty. apply app_nil_r.
      * apply is_empty_false in Hq.
        apply (Submitted _ _ _ FromKeydown); eauto;
          try (rewrite sendQueryToServer_exec; reflexivity).
        unfold requests. cbn [log record]. rewrite requests_of_app.
        fold (requests (exec (sendQueryToServer FromKeydown
                                (trim (queryField s))) s)).
        rewrite requests_exec_send. apply app_nil_r.
Qed.

Lemma reachable_step (e : event) (s s' : state) :
  reachable s -> step e s = Some s' -> reachable s'.
Proof.
  intros [tr Hrun] Hs. exists (tr ++ [e]).
  revert Hrun. generalize initial. induction tr as [|x tr IH]; simpl; intros s0 Hrun.
  - apply Some_eq in Hrun. subst s0. rewrite Hs. reflexivity.
  - destruct (step x s0); [|discriminate]. apply IH, Hrun.
Qed.

Lemma reachable_run (tr : list event) (s s' : state) :
  reachable s -> run tr s = Some s' -> reachable s'.
Proof.
  revert s. induction tr as [|e tr IH]; simpl; intros s Hr Hrun.
  - apply Some_eq in Hrun. subst s'. exact Hr.
  - destruct (step e s) as [s1|] eqn:Hs; [|discriminate].
    apply (IH s1); [apply (reachable_step e s s1 Hr Hs)|exact Hrun].
Qed.

(** A property of the page as loaded that every step keeps holds of
    every state the page can be in. *)
Lemma reachable_induction (P : state -> Prop) :
  P initial ->
  (forall e s s', reachable s -> P s -> step e s = Some s' -> P s') ->
  forall s, reachable s -> P s.
Proof.
  intros Hinit Hstep s [tr Hrun].
  assert (forall tr s0 s1, reachable s0 -> P s0 -> run tr s0 = Some s1 -> P s1) as H.
  { clear tr s Hrun. induction tr as [|e tr IH]; simpl; intros s0 s1 Hr Hp Hrun.
    - apply Some_eq in Hrun. subst s1. exact Hp.
    - destruct (step e s0) as [s2|] eqn:Hs; [|discriminate].
      apply (IH s2 s1); [apply (reachable_step e s0 s2 Hr Hs)| |exact Hrun].
      apply (Hstep e s0 s2 Hr Hp Hs). }
  apply (H tr initial s); [exists []; reflexivity|exact Hinit|exact Hrun].
Qed.

(** ** Identities are handed out once *)

(** Keys stay distinct when elements are dropped. *)
Lemma filter_keeps_keys_distinct {X Y} (keep : X -> bool) (key : X -> Y)
      (xs : list X) (Hxs : NoDup (map key xs)) :
  NoDup (map key (filter keep xs)).
Proof.
  induction xs as [|x xs IH]; simpl in *; [constructor|].
  apply NoDup_cons_iff in Hxs. destruct Hxs as [Hx Hxs].
  destruct (keep x); simpl; [|exact (IH Hxs)].
  apply NoDup_cons; [|exact (IH Hxs)].
  intros Hin. apply Hx. apply in_map_iff in Hin.
  destruct Hin as [y [Hy Hin]]. apply filter_In in Hin.
  apply in_map_iff. exists y. tauto.
Qed.

Lemma NoDup_map_eq {A B} (f : A -> B) (l : list A) (x y : A) :
  NoDup (map f l) -> In x l -> In y l -> f x = f y -> x = y.
Proof.
  induction l as [|z l IH]; simpl; intros H Hx Hy Hf; [destruct Hx|].
  inversion H as [|? ? Hz Hl]; subst.
  destruct Hx as [->|Hx], Hy as [->|Hy]; auto.
  - exfalso. apply Hz. rewrite Hf. apply in_map, Hy.
  - exfalso. apply Hz. rewrite <- Hf. apply in_map, Hx.
Qed.

Lemma NoDup_snoc {A} (l : list A) (x : A) :
  NoDup l -> ~ In x l -> NoDup (l ++ [x]).
Proof.
  induction l as [|y l IH]; simpl; intros H Hx.
  - constructor; [intros []|constructor].
  - inversion H as [|? ? Hy Hl]; subst. constructor.
    + intros Hin. apply in_app_or in Hin. destruct Hin as [Hin|[->|[]]]; tauto.
    + apply IH; tauto.
Qed.

Lemma bounded_not_in {A} (f : A -> nat) (n : nat) (l : list A) :
  Forall (fun x => f x < n) l -> forall m, n <= m -> ~ In m (map f l).
Proof.
  intros H m Hm Hin. apply in_map_iff in Hin. destruct Hin as [x [<- Hin]].
  rewrite Forall_forall in H. specialize (H x Hin). lia.
Qed.

Lemma dropped_key (sub : nat) (l : list (nat * activation)) :
  ~ In sub (map fst (drop_activation sub l)).
Proof.
  intros Hin. apply in_map_iff in Hin. destruct Hin as [[k b] [Hk Hin]].
  apply filter_In in Hin. destruct Hin as [_ Hne]. simpl in *. subst k.
  rewrite Nat.eqb_refl in Hne. discriminate Hne.
Qed.

(** Among the activations that wait, only [sub] has the placeholder of
    [sub]. *)
Lemma other_spinner (s : state) (sub k : nat) (a b : activation) :
  tidy s ->
  find_activation sub (suspended s) = Some a ->
  In (k, b) (drop_activation sub (suspended s)) ->
  uid (loadingSpinner b) <> uid (loadingSpinner a).
Proof.
  intros [_ _ Hsp _] Hf Hin Heq.
  apply filter_In in Hin. destruct Hin as [Hin Hne]. simpl in Hne.
  apply find_activation_In in Hf.
  pose proof (NoDup_map_eq (fun p => uid (loadingSpinner (snd p)))
                (suspended s) (k, b) (sub, a) Hsp Hin Hf Heq) as H.
  injection H as -> _. rewrite Nat.eqb_refl in Hne. discriminate Hne.
Qed.

Lemma tidy_initial : tidy initial.
Proof. constructor; simpl; constructor. Qed.

Lemma tidy_step (e : event) (s s' : state) :
  invariant s -> tidy s -> step e s = Some s' -> tidy s'.
Proof.
  intros [_ _ _ He Ha Hsp] Ht Hs. pose proof Ht as [Hu Hk Hs' Hsh].
  destruct (step_shape e s s' Hs)
    as [Hm Hsu _ _ _
       | from _ _ Hm Hsu _ _ _
       | _ _ Hm Hsu _ _ _
       | sub a ok _ Hf _ Hm Hsu _ _ _
       | sub a el _ Hf Hm Hid _ Hsu _ _ _
       | sub a result el _ Hf _ Hm Hid _ Hsu _ _ _].
  - constructor; rewrite ?Hm, ?Hsu; assumption.
  - constructor; rewrite ?Hm, ?Hsu.
    + change [queryDiv_of s (trim (queryField s)); loadingSpinner_of s]
        with ([queryDiv_of s (trim (queryField s))] ++ [loadingSpinner_of s]).
      rewrite app_assoc, !map_app. simpl.
      apply NoDup_snoc; [apply NoDup_snoc; [exact Hu|]|].
      * apply (bounded_not_in uid (next_element s)); [exact He|lia].
      * intros Hin. apply in_app_or in Hin. destruct Hin as [Hin|[Hin|[]]]; [|lia].
        revert Hin. apply (bounded_not_in uid (next_element s)); [exact He|lia].
    + rewrite map_app. simpl. apply NoDup_snoc; [exact Hk|].
      apply (bounded_not_in fst (next_activation s)); [exact Ha|lia].
    + rewrite map_app. simpl. apply NoDup_snoc; [exact Hs'|].
      apply (bounded_not_in (fun p => uid (loadingSpinner (snd p)))
               (next_element s)); [exact Hsp|lia].
    + apply Forall_app. split.
      * eapply Forall_impl; [|exact Hsh]. intros p [Hin Hc].
        split; [apply in_or_app; left; exact Hin|exact Hc].
      * constructor; [|constructor]. simpl. split; [|reflexivity].
        apply in_or_app. right. right. left. reflexivity.
  - constructor; rewrite ?Hm, ?Hsu; try assumption.
    + rewrite map_app. simpl. apply NoDup_snoc; [exact Hu|].
      apply (bounded_not_in uid (next_element s)); [exact He|lia].
    + eapply Forall_impl; [|exact Hsh]. intros p [Hin Hc].
      split; [apply in_or_app; left; exact Hin|exact Hc].
  - pose proof (find_activation_In _ _ _ Hf) as Hin.
    pose proof (proj1 (Forall_forall _ _) Hsh _ Hin) as Hshown.
    constructor; rewrite ?Hm, ?Hsu.
    + exact Hu.
    + rewrite map_app. simpl. apply NoDup_snoc.
      * apply filter_keeps_keys_distinct, Hk.
      * apply dropped_key.
    + rewrite map_app. simpl. apply NoDup_snoc.
      * apply filter_keeps_keys_distinct, Hs'.
      * intros Hi. apply in_map_iff in Hi. destruct Hi as [[k b] [Heq Hi]].
        exact (other_spinner s sub k a b Ht Hf Hi Heq).
    + apply Forall_app. split.
      * apply Forall_filter, Hsh.
      * constructor; [exact Hshown|constructor].
  - constructor; rewrite ?Hm, ?Hsu.
    + rewrite map_app. simpl. apply NoDup_snoc; [exact Hu|]. rewrite Hid.
      apply (bounded_not_in uid (next_element s)); [exact He|lia].
    + apply filter_keeps_keys_distinct, Hk.
    + apply filter_keeps_keys_distinct, Hs'.
    + apply Forall_filter. eapply Forall_impl; [|exact Hsh]. intros p [Hin Hc].
      split; [apply in_or_app; left; exact Hin|exact Hc].
  - constructor; rewrite ?Hm, ?Hsu.
    + rewrite map_app. simpl. apply NoDup_snoc.
      * apply filter_keeps_keys_distinct, Hu.
      * intros Hi. apply in_map_iff in Hi. destruct Hi as [x [Hx Hi]].
        apply filter_In in Hi. destruct Hi as [Hi _].
        rewrite Forall_forall in He. specialize (He x Hi). lia.
    + apply filter_keeps_keys_distinct, Hk.
    + apply filter_keeps_keys_distinct, Hs'.
    + apply Forall_forall. intros [k b] Hi.
      pose proof (other_spinner s sub k a b Ht Hf Hi) as Hne.
      apply filter_In in Hi. destruct Hi as [Hi _].
      destruct (proj1 (Forall_forall _ _) Hsh _ Hi) as [Hin Hc].
      split; [|exact Hc]. apply in_or_app. left.
      apply filter_In. split; [exact Hin|].
      simpl. apply negb_true_iff. apply Nat.eqb_neq. exact Hne.
Qed.

Lemma reachable_tidy (s : state) : reachable s -> tidy s.
Proof.
  apply reachable_induction; [exact tidy_initial|].
  intros e s0 s1 Hr Ht Hs.
  apply (tidy_step e s0 s1 (reachable_invariant s0 Hr) Ht Hs).
Qed.

Lemma one_occurrence {A} (f : A -> nat) (l : list A) (x : A) :
  NoDup (map f l) -> In x l ->
  List.length (filter (fun c => f c =? f x) l) = 1.
Proof.
  induction l as [|y l IH]; simpl; intros H Hx; [destruct Hx|].
  inversion H as [|? ? Hy Hl]; subst. destruct Hx as [->|Hx].
  - rewrite Nat.eqb_refl. simpl. f_equal.
    assert (forall l', ~ In (f x) (map f l') ->
                       filter (fun c => f c =? f x) l' = []) as Hnone.
    { induction l' as [|z l' IH']; simpl; intros Hz; [reflexivity|].
      destruct (f z =? f x) eqn:E.
      - apply Nat.eqb_eq in E. exfalso. apply Hz. left. exact E.
      - apply IH'. tauto. }
    rewrite (Hnone l Hy). reflexivity.
  - destruct (f y =? f x) eqn:E.
    + apply Nat.eqb_eq in E. exfalso. apply Hy. rewrite E. apply in_map, Hx.
    + apply IH; assumption.
Qed.

(** Taking a placeholder out of the transcript leaves a selection that
    has no place for it as it was. *)
Lemma filter_detach (p : element -> bool) (sp : element) (m : list element) :
  (forall c, In c m -> uid c = uid sp -> p c = false) ->
  filter p (detach sp m) = filter p m.
Proof.
  induction m as [|c m IH]; simpl; intros H; [reflexivity|].
  destruct (uid c =? uid sp) eqn:E; simpl.
  - apply Nat.eqb_eq in E. rewrite (H c (or_introl eq_refl) E).
    apply IH. intros c' Hc'. apply H. right. exact Hc'.
  - rewrite IH; [reflexivity|]. intros c' Hc'. apply H. right. exact Hc'.
Qed.

(** In a tidy state the child of the transcript with the identity of a
    waiting activation's placeholder is that placeholder. *)
Lemma spinner_by_uid (s : state) (sub : nat) (a : activation) (c : element) :
  tidy s ->
  find_activation sub (suspended s) = Some a ->
  In c (messagesContainer s) ->
  uid c = uid (loadingSpinner a) ->
  c = loadingSpinner a /\ classList c = ["loading-spinner"%string].
Proof.
  intros [Hu _ _ Hsh] Hf Hc Heq. apply find_activation_In in Hf.
  destruct (proj1 (Forall_forall _ _) Hsh _ Hf) as [Hin Hcl]. simpl in *.
  assert (c = loadingSpinner a) as ->
      by exact (NoDup_map_eq uid _ _ _ Hu Hc Hin Heq).
  split; [reflexivity|exact Hcl].
Qed.

(** ** Further properties of the script *)

(** X1. While an activation of [sendQueryToServer] waits, at either
    [await], its loading placeholder is in the transcript, once; and two
    activations that wait have different placeholders. *)
Theorem placeholder_shown_while_in_flight (s : state) (sub : nat) (a : activation) :
  reachable s ->
  find_activation sub (suspended s) = Some a ->
  In (loadingSpinner a) (placeholders s)
  /\ occurrences (loadingSpinner a) s = 1
  /\ (forall sub' a',
         find_activation sub' (suspended s) = Some a' ->
         sub' <> sub ->
         uid (loadingSpinner a') <> uid (loadingSpinner a)).
Proof.
  intros Hr Hf. pose proof (reachable_tidy s Hr) as Ht.
  pose proof Ht as [Hu _ Hsp Hsh].
  pose proof (find_activation_In _ _ _ Hf) as Hin.
  destruct (proj1 (Forall_forall _ _) Hsh _ Hin) as [Hshown Hcl]. simpl in *.
  split; [|split].
  - apply filter_In. split; [exact Hshown|].
    unfold has_class. rewrite Hcl. reflexivity.
  - apply (one_occurrence uid _ _ Hu Hshown).
  - intros sub' a' Hf' Hne Heq. apply Hne.
    apply find_activation_In in Hf'.
    pose proof (NoDup_map_eq (fun p => uid (loadingSpinner (snd p)))
                  (suspended s) (sub', a') (sub, a) Hsp Hf' Hin Heq) as H.
    injection H as -> _. reflexivity.
Qed.

(** Two queries sent one after the other, none answered yet: the
    placeholder of the first is shown once. *)
Lemma placeholder_shown_two_in_flight :
  In (mkElement 1 ["loading-spinner"%string] NoContent)
     (placeholders (state_after [UserInput (lit "one"); SendClick;
                                 UserInput (lit "two"); SendClick]))
  /\ occurrences (mkElement 1 ["loading-spinner"%string] NoContent)
       (state_after [UserInput (lit "one"); SendClick;
                     UserInput (lit "two"); SendClick]) = 1.
Proof.
  assert (reachable (state_after [UserInput (lit "one"); SendClick;
                                  UserInput (lit "two"); SendClick])) as Hr
      by (apply reachable_state_after; vm_compute; discriminate).
  destruct (placeholder_shown_while_in_flight _ 0
              (mkActivation FromClick
                 (mkElement 1 ["loading-spinner"%string] NoContent) AwaitFetch)
              Hr eq_refl) as [H1 [H2 _]].
  split; [exact H1|exact H2].
Defined.

(** X2. Whatever happens, the entries of the transcript (its children
    other than loading placeholders) stay, in their order: a step adds at
    most one entry, at the end, and it is a query, a response or an error
    entry. *)
Theorem entries_only_grow (e : event) (s s' : state) :
  reachable s ->
  step e s = Some s' ->
  exists new,
    entries s' = entries s ++ new
    /\ List.length new <= 1
    /\ Forall (fun el => classList el = ["query-message"%string]
                         \/ classList el = ["response"%string]
                         \/ classList el = ["error"%string]) new.
Proof.
  intros Hr Hs. pose proof (reachable_tidy s Hr) as Ht.
  unfold entries.
  destruct (step_shape e s s' Hs)
    as [Hm _ _ _ _
       | from _ _ Hm _ _ _ _
       | _ _ Hm _ _ _ _
       | sub a ok _ _ _ Hm _ _ _ _
       | sub a el _ _ Hm _ Hcl _ _ _ _
       | sub a result el _ Hf _ Hm _ Hcl _ _ _ _]; rewrite Hm.
  - exists []. rewrite app_nil_r. repeat split; [simpl; lia|constructor].
  - rewrite filter_app. eexists. split; [reflexivity|].
    simpl. split; [lia|]. constructor; [left; reflexivity|constructor].
  - rewrite filter_app. eexists. split; [reflexivity|].
    simpl. split; [lia|]. constructor; [right; right; reflexivity|constructor].
  - exists []. rewrite app_nil_r. repeat split; [simpl; lia|constructor].
  - rewrite filter_app. exists [el]. simpl. unfold has_class. rewrite Hcl. simpl.
    split; [reflexivity|]. split; [lia|].
    constructor; [right; right; exact Hcl|constructor].
  - rewrite filter_app, filter_detach.
    + exists [el]. simpl. unfold has_class.
      destruct Hcl as [Hcl|Hcl]; rewrite Hcl; simpl;
        (split; [reflexivity|]); (split; [lia|]);
        (constructor; [|constructor]); auto.
    + intros c Hc Heq.
      destruct (spinner_by_uid s sub a c Ht Hf Hc Heq) as [_ Hc'].
      unfold has_class. rewrite Hc'. reflexivity.
Qed.

(** A success: the response takes its place after the query. *)
Lemma entries_grow_on_success :
  exists s' new,
    step (JsonSettles 0 (Some (JObj [(lit "response", JStr (lit "yo"))])))
         (state_after [UserInput (lit "hi"); SendClick; FetchSettles 0 (Some true)])
    = Some s'
    /\ entries s'
       = entries (state_after [UserInput (lit "hi"); SendClick;
                               FetchSettles 0 (Some true)]) ++ new
    /\ List.length new <= 1.
Proof.
  assert (reachable (state_after [UserInput (lit "hi"); SendClick;
                                  FetchSettles 0 (Some true)])) as Hr
      by (apply reachable_state_after; vm_compute; discriminate).
  destruct (step (JsonSettles 0 (Some (JObj [(lit "response", JStr (lit "yo"))])))
              (state_after [UserInput (lit "hi"); SendClick;
                            FetchSettles 0 (Some true)]))
    as [s'|] eqn:Hs; [|vm_compute in Hs; discriminate Hs].
  destruct (entries_only_grow _ _ s' Hr Hs) as [new [H1 [H2 _]]].
  exists s', new. repeat split; assumption.
Defined.

(** X3. In every state the page can be in, as many requests have been
    sent as activations of [sendQueryToServer] were started, and the
    transcript holds as many query entries: one request and one query
    entry for each submission, none lost and none doubled. *)
Theorem one_request_one_query_entry (s : state) :
  reachable s ->
  List.length (requests s) = next_activation s
  /\ List.length (query_entries s) = next_activation s.
Proof.
  revert s. apply reachable_induction; [split; reflexivity|].
  intros e s s' Hr [Hreq Hq] Hs. pose proof (reachable_tidy s Hr) as Ht.
  unfold query_entries in *.
  destruct (step_shape e s s' Hs)
    as [Hm _ Hrq Hna _
       | from _ _ Hm _ Hrq Hna _
       | _ _ Hm _ Hrq Hna _
       | sub a ok _ _ _ Hm _ Hrq Hna _
       | sub a el _ _ Hm _ Hcl _ Hrq Hna _
       | sub a result el _ Hf _ Hm _ Hcl _ Hrq Hna _];
    rewrite Hm, Hrq, Hna.
  - tauto.
  - rewrite filter_app, !length_app, Hreq, Hq. simpl. lia.
  - rewrite filter_app, !length_app, Hreq, Hq. simpl. lia.
  - tauto.
  - rewrite filter_app, length_app, Hreq, Hq. simpl. unfold has_class.
    rewrite Hcl. simpl. lia.
  - rewrite filter_app, length_app, filter_detach.
    + rewrite Hreq, Hq. simpl. unfold has_class.
      destruct Hcl as [Hcl|Hcl]; rewrite Hcl; simpl; lia.
    + intros c Hc Heq.
      destruct (spinner_by_uid s sub a c Ht Hf Hc Heq) as [_ Hc'].
      unfold has_class. rewrite Hc'. reflexivity.
Qed.

(** A refused attempt, two submissions, one answer. *)
Lemma one_request_one_query_entry_run :
  List.length (requests (state_after
                           [SendClick; UserInput (lit "one"); SendClick;
                            UserInput (lit "two"); KeyDown (lit "Enter") false;
                            FetchSettles 1 None])) = 2
  /\ List.length (query_entries (state_after
                                   [SendClick; UserInput (lit "one"); SendClick;
                                    UserInput (lit "two");
                                    KeyDown (lit "Enter") false;
                                    FetchSettles 1 None])) = 2.
Proof.
  apply (one_request_one_query_entry
           (state_after [SendClick; UserInput (lit "one"); SendClick;
                         UserInput (lit "two"); KeyDown (lit "Enter") false;
                         FetchSettles 1 None])).
  apply reachable_state_after. vm_compute. discriminate.
Defined.

Lemma find_activation_app (sub : nat) (l l' : list (nat * activation)) :
  find_activation sub (l ++ l')
  = match find_activation sub l with
    | Some a => Some a
    | None => find_activation sub l'
    end.
Proof.
  induction l as [|[i b] l IH]; simpl; [reflexivity|].
  destruct (i =? sub); [reflexivity|exact IH].
Qed.

Lemma step_no_activation (e : event) (sub : nat) (s : state) :
  (exists r, e = FetchSettles sub r) \/ (exists r, e = JsonSettles sub r) ->
  find_activation sub (suspended s) = None ->
  step e s = None.
Proof.
  intros [[r ->]|[r ->]] Hf; cbn [step]; rewrite Hf; reflexivity.
Qed.

(** X4. The script never retries and never answers twice.  A step that
    resumes an activation sends no request and starts no activation.
    Once [response.json()] has settled, or [fetch] was rejected, the
    activation is over: no settlement for it can be delivered again.
    Once [fetch] has given a response, only the body is waited for. *)
Theorem settled_activation_is_over (e : event) (s s' : state) :
  is_settlement e = true ->
  step e s = Some s' ->
  requests s' = requests s
  /\ next_activation s' = next_activation s
  /\ (forall sub,
         (exists r, e = JsonSettles sub r) \/ e = FetchSettles sub None ->
         forall e',
           (exists r, e' = FetchSettles sub r) \/ (exists r, e' = JsonSettles sub r) ->
           step e' s' = None)
  /\ (forall sub ok,
         e = FetchSettles sub (Some ok) ->
         forall r, step (FetchSettles sub r) s' = None).
Proof.
  intros He Hs.
  destruct (step_shape e s s' Hs)
    as [_ _ Hrq Hna _
       | from _ [->|[[k ->]|[i ->]]] _ _ _ _ _
       | _ [->|[k ->]] _ _ _ _ _
       | sub a ok _ _ _ _ _ Hrq Hna _
       | sub a el _ _ _ _ _ _ Hrq Hna _
       | sub a result el _ _ _ _ _ _ _ Hrq Hna _]; try discriminate He;
    (split; [exact Hrq|]); (split; [exact Hna|]); clear Hrq Hna;
    destruct (step_settlement e s s' He Hs) as [sub0 [a0 [Hf H]]];
    cbv zeta in H;
    (assert (forall l, find_activation sub0 l = None ->
                       forall x, find_activation sub0
                                   (suspended (with_suspended l x)) = None)
      as Hw by (intros l Hl x; exact Hl));
    pose proof (find_activation_dropped sub0 (suspended s)) as Hd;
    destruct H as [[Ha [-> ->]] | [[ok0 [Ha [-> ->]]] | [[ok0 [Ha [-> ->]]] |
                  [[result0 [markup [Ha [-> [Hm ->]]]]] |
                  [[result0 [Ha [-> [Hm ->]]]] | [errorResult [Ha [-> ->]]]]]]]];
    (split;
     [intros sub1 Hsub e' He';
      assert (sub1 = sub0) as -> by
          (destruct Hsub as [[r Hr]|Hr]; congruence);
      apply (step_no_activation e' sub0 _ He')
     |intros sub1 ok1 Heq r]);
    try discriminate;
    try (destruct Hsub as [[r Hr]|Hr]; discriminate);
    try (rewrite catch_block_exec; exact Hd);
    try (rewrite (after_json_success _ _ _ _ Hm); exact Hd);
    try (rewrite (after_json_type_error _ _ _ Hm); exact Hd);
    try (rewrite after_json_server_error; exact Hd).
  all: injection Heq as <- <-; cbn [step suspended with_suspended];
    rewrite find_activation_app, Hd; simpl; rewrite Nat.eqb_refl; reflexivity.
Qed.

(** A response that arrives twice: the second time nobody waits. *)
Lemma settled_activation_is_over_twice :
  exists s',
    step (JsonSettles 0 (Some (JObj [(lit "response", JStr (lit "yo"))])))
         (state_after [UserInput (lit "hi"); SendClick; FetchSettles 0 (Some true)])
    = Some s'
    /\ requests s'
       = requests (state_after [UserInput (lit "hi"); SendClick;
                                FetchSettles 0 (Some true)])
    /\ step (JsonSettles 0 (Some (JObj [(lit "response", JStr (lit "yo"))]))) s'
       = None.
Proof.
  destruct (step (JsonSettles 0 (Some (JObj [(lit "response", JStr (lit "yo"))])))
              (state_after [UserInput (lit "hi"); SendClick;
                            FetchSettles 0 (Some true)]))
    as [s'|] eqn:Hs; [|vm_compute in Hs; discriminate Hs].
  destruct (settled_activation_is_over
              (JsonSettles 0 (Some (JObj [(lit "response", JStr (lit "yo"))])))
              _ s' eq_refl Hs) as [H1 [_ [H3 _]]].
  exists s'. split; [reflexivity|]. split; [exact H1|].
  apply (H3 0); [left|right]; eexists; reflexivity.
Defined.

(** ** What [trim] leaves *)

Lemma trimStart_head (s : jsstring) :
  match trimStart s with
  | [] => True
  | c :: _ => is_white_space c = false
  end.
Proof.
  induction s as [|c s IH]; simpl; [exact I|].
  destruct (is_white_space c) eqn:E; [exact IH|exact E].
Qed.

Lemma trimStart_fixed (s : jsstring) :
  match s with [] => True | c :: _ => is_white_space c = false end ->
  trimStart s = s.
Proof.
  destruct s as [|c s]; simpl; [reflexivity|]. intros ->. reflexivity.
Qed.

Lemma trimStart_suffix (s : jsstring) : exists ws, s = ws ++ trimStart s.
Proof.
  induction s as [|c s [ws IH]]; simpl; [now exists []|].
  destruct (is_white_space c); [|now exists []].
  exists (c :: ws). simpl. f_equal. exact IH.
Qed.

Lemma trim_head (s : jsstring) :
  match trim s with [] => True | c :: _ => is_white_space c = false end.
Proof.
  unfold trim.
  destruct (trimStart_suffix (rev (trimStart s))) as [ws Hws].
  assert (trimStart s = rev (trimStart (rev (trimStart s))) ++ rev ws) as Ht.
  { rewrite <- rev_app_distr, <- Hws, rev_involutive. reflexivity. }
  pose proof (trimStart_head s) as Hh. rewrite Ht in Hh.
  destruct (rev (trimStart (rev (trimStart s)))); [exact I|exact Hh].
Qed.

Lemma trim_last (s : jsstring) :
  trim s <> [] -> is_white_space (last (trim s) 32%N) = false.
Proof.
  unfold trim. pose proof (trimStart_head (rev (trimStart s))) as Hh.
  destruct (trimStart (rev (trimStart s))) as [|c r]; simpl.
  - intros H. destruct (H eq_refl).
  - intros _. rewrite last_last. exact Hh.
Qed.

Lemma trim_trim (s : jsstring) : trim (trim s) = trim s.
Proof.
  pose proof (trim_head s) as Hh.
  unfold trim at 1. rewrite (trimStart_fixed (trim s) Hh).
  unfold trim. rewrite rev_involutive.
  rewrite (trimStart_fixed _ (trimStart_head (rev (trimStart s)))).
  reflexivity.
Qed.

(** X5. Every request the page has ever sent is a POST to [/query] whose
    body is [JSON.stringify({ query: q })] for a [q] that is not empty
    and has no white space at its start or its end ([q] is its own
    trim): the server is never asked an empty or untrimmed question. *)
Theorem requests_carry_trimmed_queries (s : state) :
  reachable s ->
  Forall (fun r => exists q,
              r = request_of q
              /\ q <> []
              /\ trim q = q
              /\ is_white_space (hd 32%N q) = false
              /\ is_white_space (last q 32%N) = false)
         (requests s).
Proof.
  revert s. apply reachable_induction; [constructor|].
  intros e s s' _ IH Hs.
  destruct (step_shape e s s' Hs)
    as [_ _ Hrq _ _
       | from Hq _ _ _ Hrq _ _
       | _ _ _ _ Hrq _ _
       | sub a ok _ _ _ _ _ Hrq _ _
       | sub a el _ _ _ _ _ _ Hrq _ _
       | sub a result el _ _ _ _ _ _ _ Hrq _ _]; rewrite Hrq; try exact IH.
  apply Forall_app. split; [exact IH|]. constructor; [|constructor].
  exists (trim (queryField s)).
  split; [reflexivity|]. split; [exact Hq|]. split; [apply trim_trim|].
  split; [|apply trim_last, Hq].
  pose proof (trim_head (queryField s)) as Hh.
  destruct (trim (queryField s)); [destruct (Hq eq_refl)|exact Hh].
Qed.

(** Speech with blanks around it, sent by the timer. *)
Lemma requests_carry_trimmed_queries_speech :
  Forall (fun r => exists q,
              r = request_of q
              /\ q <> []
              /\ trim q = q
              /\ is_white_space (hd 32%N q) = false
              /\ is_white_space (last q 32%N) = false)
         (requests (state_after [Fragment (lit "  what is x ");
                                 Elapse 3000; TimerFire 1])).
Proof.
  apply requests_carry_trimmed_queries.
  apply reachable_state_after. vm_compute. discriminate.
Defined.

(** ** How the handlers follow one another *)


(** A timeout that is pending and due expires. *)
Lemma step_TimerFire_due (id due : nat) (s : state) :
  due_of id (timeouts s) = Some due ->
  due <= clock s ->
  step (TimerFire id) s
  = Some (if is_empty (trim (queryField s))
          then with_timeouts (cancel id (timeouts s)) s
          else exec (sendQueryToServer FromTimer (trim (queryField s)))
                 (with_timeouts (cancel id (timeouts s)) s)).
Proof.
  intros Hd Hle. cbn [step]. rewrite Hd.
  apply Nat.leb_le in Hle. rewrite Hle.
  unfold exec, inactivity_callback, bind, get_value, ret. cbn [fst snd queryField with_timeouts].
  destruct (is_empty _); reflexivity.
Qed.

Lemma step_submit (e : event) (s : state) :
  e = SendClick \/ e = KeyDown (lit "Enter") false ->
  exists s',
    step e s = Some s'
    /\ clock s' = clock s /\ timeouts s' = timeouts s
    /\ (trim (queryField s) <> [] ->
        queryField s' = []
        /\ messagesContainer s'
           = messagesContainer s
             ++ [queryDiv_of s (trim (queryField s)); loadingSpinner_of s]
        /\ requests s' = requests s ++ [request_of (trim (queryField s))]
        /\ next_element s' = S (S (next_element s)))
    /\ (trim (queryField s) = [] ->
        queryField s' = queryField s
        /\ messagesContainer s' = messagesContainer s ++ [empty_errorDiv_of s]
        /\ requests s' = requests s).
Proof.
  intros [-> | ->]; [rewrite step_SendClick | rewrite step_Enter];
    eexists; (split; [reflexivity|]);
    destruct (is_empty (trim (queryField s))) eqn:Hq;
    [apply is_empty_true in Hq | apply is_empty_false in Hq
    |apply is_empty_true in Hq | apply is_empty_false in Hq];
    (split; [try rewrite empty_query_error_exec;
             try rewrite sendQueryToServer_exec; reflexivity|]);
    (split; [try rewrite empty_query_error_exec;
             try rewrite sendQueryToServer_exec; reflexivity|]);
    (split; [intros Hn|intros Hn]); try contradiction.
  - rewrite empty_query_error_exec. simpl. repeat split.
    unfold requests. simpl. rewrite !requests_of_app. simpl.
    rewrite ?app_nil_r. reflexivity.
  - rewrite sendQueryToServer_exec. simpl. repeat split.
    unfold requests. simpl. rewrite !requests_of_app. simpl.
    rewrite ?app_nil_r. reflexivity.
  - rewrite empty_query_error_exec. simpl. repeat split.
    unfold requests. simpl. rewrite !requests_of_app. simpl.
    rewrite ?app_nil_r. reflexivity.
  - rewrite sendQueryToServer_exec. simpl. repeat split.
    unfold requests. simpl. rewrite !requests_of_app. simpl.
    rewrite ?app_nil_r. reflexivity.
Qed.

(** X6. A second click on Send (or a second Enter) right after a
    submission finds the field cleared: it sends nothing and shows the
    empty-query error.  So two attempts in a row send the query once. *)
Theorem second_attempt_sends_nothing (e1 e2 : event) (s : state) :
  e1 = SendClick \/ e1 = KeyDown (lit "Enter") false ->
  e2 = SendClick \/ e2 = KeyDown (lit "Enter") false ->
  trim (queryField s) <> [] ->
  exists s',
    run [e1; e2] s = Some s'
    /\ requests s' = requests s ++ [request_of (trim (queryField s))]
    /\ messagesContainer s'
       = messagesContainer s
         ++ [queryDiv_of s (trim (queryField s)); loadingSpinner_of s;
             mkElement (S (S (next_element s))) ["error"%string]
               (InnerHTML (lit "Error: Please enter a query before sending."))].
Proof.
  intros H1 H2 Hq.
  destruct (step_submit e1 s H1) as [s1 [Hs1 [_ [_ [Hsent _]]]]].
  destruct (Hsent Hq) as [Hf1 [Hm1 [Hr1 Hn1]]].
  destruct (step_submit e2 s1 H2) as [s2 [Hs2 [_ [_ [_ Hrefused]]]]].
  assert (trim (queryField s1) = []) as Hq1 by (rewrite Hf1; reflexivity).
  destruct (Hrefused Hq1) as [_ [Hm2 Hr2]].
  exists s2. cbn [run]. rewrite Hs1, Hs2. split; [reflexivity|].
  split; [rewrite Hr2; exact Hr1|].
  rewrite Hm2, Hm1. unfold empty_errorDiv_of. rewrite Hn1.
  rewrite <- app_assoc. reflexivity.
Qed.

(** A double click on Send over the field "hello". *)
Lemma second_attempt_double_click :
  exists s',
    run [SendClick; SendClick] (state_after [UserInput (lit "hello")]) = Some s'
    /\ requests s' = [request_of (lit "hello")].
Proof.
  destruct (second_attempt_sends_nothing SendClick SendClick
              (state_after [UserInput (lit "hello")])
              (or_introl eq_refl) (or_introl eq_refl))
    as [s' [Hrun [Hr _]]].
  - vm_compute. discriminate.
  - exists s'. split; [exact Hrun|exact Hr].
Defined.

(** X7. A query that speech has put into the field and that the user
    then sends by hand goes out once: the timeout the fragment has set
    stays pending, but when it expires (nothing typed or said in between)
    it finds the field empty and does nothing. *)
Theorem hand_sent_speech_goes_out_once (e : event) (query : jsstring) (d : nat)
        (s : state) :
  reachable s ->
  e = SendClick \/ e = KeyDown (lit "Enter") false ->
  trim query <> [] ->
  silenceDelay <= d ->
  exists s',
    run [Fragment query; e; Elapse d; TimerFire (next_timeout s)] s = Some s'
    /\ requests s' = requests s ++ [request_of (trim query)]
    /\ timeouts s' = []
    /\ queryField s' = [].
Proof.
  intros Hr He Hq Hd. pose proof (reachable_invariant s Hr) as Hinv.
  pose proof (commands_query_timeouts query s Hinv) as Ht.
  set (s1 := exec (commands_query query) s) in *.
  assert (queryField s1 = query /\ clock s1 = clock s
          /\ requests s1 = requests s) as [Hf1 [Hc1 Hr1]].
  { unfold s1. rewrite commands_query_exec. repeat split.
    unfold requests. simpl. rewrite requests_of_app. apply app_nil_r. }
  destruct (step_submit e s1 He) as [s2 [Hs2 [Hc2 [Ht2 [Hsent _]]]]].
  rewrite Hf1 in Hsent. destruct (Hsent Hq) as [Hf2 [_ [Hr2 _]]].
  set (s3 := with_clock (clock s2 + d) s2).
  assert (step (TimerFire (next_timeout s)) s3
          = Some (with_timeouts [] s3)) as Hs4.
  { rewrite (step_TimerFire_due (next_timeout s) (clock s + silenceDelay) s3).
    - unfold s3. cbn [queryField with_clock timeouts]. rewrite Hf2, Ht2, Ht.
      unfold cancel. simpl. rewrite Nat.eqb_refl. reflexivity.
    - unfold s3. cbn [timeouts with_clock]. rewrite Ht2, Ht. simpl.
      rewrite Nat.eqb_refl. reflexivity.
    - unfold s3. cbn [clock with_clock]. rewrite Hc2, Hc1. lia. }
  exists (with_timeouts [] s3).
  split.
  - change (run [Fragment query; e; Elapse d; TimerFire (next_timeout s)] s)
      with (match step e s1 with
            | Some x => run [Elapse d; TimerFire (next_timeout s)] x
            | None => None
            end).
    rewrite Hs2.
    change (run [Elapse d; TimerFire (next_timeout s)] s2)
      with (match step (TimerFire (next_timeout s)) s3 with
            | Some x => Some x
            | None => None
            end).
    rewrite Hs4. reflexivity.
  - split; [|split; [reflexivity|exact Hf2]].
    change (requests (with_timeouts [] s3)) with (requests s2).
    rewrite Hr2, Hr1. reflexivity.
Qed.

(** Speech, then a click on Send one second later, then silence. *)
Lemma hand_sent_speech_scenario :
  exists s',
    run [Fragment (lit "what is x"); SendClick; Elapse 3000; TimerFire 1] initial
    = Some s'
    /\ requests s' = [request_of (lit "what is x")]
    /\ timeouts s' = [].
Proof.
  assert (reachable initial) as Hr by (exists []; reflexivity).
  destruct (hand_sent_speech_goes_out_once SendClick (lit "what is x") 3000
              initial Hr (or_introl eq_refl))
    as [s' [Hrun [Hreq [Ht _]]]].
  - vm_compute. discriminate.
  - unfold silenceDelay. lia.
  - exists s'. split; [exact Hrun|]. split; [exact Hreq|exact Ht].
Defined.




(** ** Keys other than Enter *)

Lemma eqb_eq (a b : jsstring) : JS.eqb a b = true <-> a = b.
Proof.
  revert b. induction a as [|x a IH]; destruct b as [|y b]; simpl;
    try (split; [discriminate|discriminate]); [tauto|].
  rewrite andb_true_iff, N.eqb_eq, IH. split.
  - intros [-> ->]. reflexivity.
  - intros [= -> ->]. tauto.
Qed.

(** X9. The keydown handler acts on Enter without shift and on nothing
    else: for any other key, and for Enter with shift held, the page is
    left exactly as it was and [preventDefault] is not called, so the
    browser does with the key what it always does.  On Enter without
    shift the last thing the handler does is [preventDefault], whether
    the query was sent or refused. *)
Theorem keydown_acts_on_plain_enter_only (key : jsstring) (shiftKey : bool)
        (s : state) :
  (key <> lit "Enter" \/ shiftKey = true ->
   step (KeyDown key shiftKey) s = Some s)
  /\ (key = lit "Enter" -> shiftKey = false ->
      exists s' calls,
        step (KeyDown key shiftKey) s = Some s'
        /\ log s' = log s ++ calls ++ [PreventDefault]).
Proof.
  split.
  - intros H. rewrite step_KeyDown.
    assert (JS.eqb key (lit "Enter") && negb shiftKey = false) as ->; [|reflexivity].
    destruct H as [H| ->]; [|apply andb_false_r].
    apply andb_false_iff. left.
    destruct (JS.eqb key (lit "Enter")) eqn:E; [|reflexivity].
    apply eqb_eq in E. contradiction.
  - intros -> ->. rewrite step_Enter.
    destruct (is_empty (trim (queryField s))).
    + eexists. eexists. split; [reflexivity|].
      rewrite empty_query_error_exec. simpl. rewrite <- app_assoc. reflexivity.
    + eexists. eexists. split; [reflexivity|].
      rewrite sendQueryToServer_exec. simpl. rewrite <- app_assoc. reflexivity.
Qed.

(** Shift and Enter over a field with text in it. *)
Lemma keydown_shift_enter :
  step (KeyDown (lit "Enter") true) (state_after [UserInput (lit "two lines")])
  = Some (state_after [UserInput (lit "two lines")]).
Proof.
  apply (proj1 (keydown_acts_on_plain_enter_only (lit "Enter") true _)).
  right. reflexivity.
Defined.

(** ** A body that is not what the script expects *)

(** X10. A response that is [ok] but whose body, though it parses, has
    no string under [response] (the key is missing, or holds a number or
    an object, or the body is not an object at all):
    [result.response.replace] throws after the placeholder was removed
    and before the engine is stopped.  So the placeholder is gone, the
    generic error entry is appended, and the listening state and the
    indicator stay as they were. *)
Theorem ok_body_without_response_text
        (s s' : state) (sub : nat) (a : activation) (result : json) :
  find_activation sub (suspended s) = Some a ->
  awaiting a = AwaitJson true ->
  (forall props text,
      result = JObj props -> get_own (lit "response") props <> Some (JStr text)) ->
  step (JsonSettles sub (Some result)) s = Some s' ->
  messagesContainer s'
  = detach (loadingSpinner a) (messagesContainer s)
    ++ [mkElement (S (next_element s)) ["error"%string]
          (InnerHTML (lit "An error occurred while processing your query. Please try again later."))]
  /\ removals (loadingSpinner a) (log s')
     = S (removals (loadingSpinner a) (log s))
  /\ listening s' = listening s
  /\ mic_active s' = mic_active s
  /\ find_activation sub (suspended s') = None.
Proof.
  intros Hf Ha Hno.
  assert (response_markup result = None) as Hm.
  { destruct result as [| | | |items|props]; try reflexivity. simpl.
    destruct (get_own (lit "response") props) as [[| | |text| |]|] eqn:Hg;
      try reflexivity.
    destruct (Hno props text eq_refl Hg). }
  rewrite (step_JsonSettles sub _ s a true Hf Ha).
  intros Hs. apply Some_eq in Hs. subst s'.
  rewrite (after_json_type_error a result _ Hm). simpl.
  split; [reflexivity|]. split.
  - rewrite removals_app. simpl. rewrite Nat.eqb_refl. lia.
  - repeat split. apply find_activation_dropped.
Qed.

(** The server answers 200 with [{"answer":"yo"}] while the engine
    listens. *)
Lemma ok_body_with_wrong_key :
  exists s',
    step (JsonSettles 0 (Some (JObj [(lit "answer", JStr (lit "yo"))])))
         (state_after [VoiceClick; UserInput (lit "hi"); SendClick;
                       FetchSettles 0 (Some true)])
    = Some s'
    /\ placeholders s' = []
    /\ listening s' = true.
Proof.
  destruct (step (JsonSettles 0 (Some (JObj [(lit "answer", JStr (lit "yo"))])))
              (state_after [VoiceClick; UserInput (lit "hi"); SendClick;
                            FetchSettles 0 (Some true)]))
    as [s'|] eqn:Hs; [|vm_compute in Hs; discriminate Hs].
  destruct (ok_body_without_response_text
              (state_after [VoiceClick; UserInput (lit "hi"); SendClick;
                            FetchSettles 0 (Some true)]) s' 0
              (mkActivation FromClick
                 (mkElement 1 ["loading-spinner"%string] NoContent)
                 (AwaitJson true))
              (JObj [(lit "answer", JStr (lit "yo"))]) eq_refl eq_refl)
    as [Hm [_ [Hl _]]].
  - intros props text [= <-]. vm_compute. discriminate.
  - exact Hs.
  - exists s'. split; [reflexivity|]. split; [|exact Hl].
    unfold placeholders. rewrite Hm. vm_compute. reflexivity.
Defined.

(** ** A browser without the speech library *)

(** X11. Everything the script installs sits inside [if (annyang)].
    When the library has left no engine behind, the script only alerts,
    and then nothing on the page works, typing included: whatever the
    user types or clicks, no request is sent, the transcript stays empty,
    and the script makes no call at all.  With the engine present the
    page is the one modelled by [step]. *)
Theorem nothing_works_without_the_engine (navigator_language : option jsstring) :
  (forall tr s',
      page_run (load false navigator_language) tr initial = Some s' ->
      requests s' = [] /\ messagesContainer s' = [] /\ log s' = []
      /\ listening s' = false)
  /\ (forall e s, page_step (load true navigator_language) e s = step e s).
Proof.
  split.
  - assert (forall tr s s',
               log s = [] /\ messagesContainer s = [] /\ suspended s = []
               /\ timeouts s = [] /\ listening s = false ->
               page_run (load false navigator_language) tr s = Some s' ->
               log s' = [] /\ messagesContainer s' = [] /\ suspended s' = []
               /\ timeouts s' = [] /\ listening s' = false) as H.
    { induction tr as [|e tr IH]; simpl; intros s s' Hp Hrun.
      - apply Some_eq in Hrun. subst s'. exact Hp.
      - destruct Hp as [Hl [Hm [Hsu [Ht Hli]]]].
        destruct e; simpl in Hrun; try discriminate Hrun;
          try (eapply IH; [|exact Hrun]; simpl; tauto).
        + rewrite Ht in Hrun. discriminate Hrun.
        + rewrite Hsu in Hrun. discriminate Hrun.
        + rewrite Hsu in Hrun. discriminate Hrun. }
    intros tr s' Hrun.
    destruct (H tr initial s' (conj eq_refl (conj eq_refl (conj eq_refl
                (conj eq_refl eq_refl)))) Hrun) as [Hl [Hm [_ [_ Hli]]]].
    unfold requests. rewrite Hl. repeat split; assumption.
  - intros e s. destruct e; reflexivity.
Qed.

(** Typing and clicking on a page whose script has only alerted. *)
Lemma nothing_works_typing_and_clicking :
  exists s',
    page_run (load false (Some (lit "de-DE")))
      [UserInput (lit "hello"); SendClick; KeyDown (lit "Enter") false; VoiceClick]
      initial = Some s'
    /\ requests s' = [] /\ messagesContainer s' = [].
Proof.
  eexists. split; [vm_compute; reflexivity|].
  destruct (proj1 (nothing_works_without_the_engine (Some (lit "de-DE")))
              [UserInput (lit "hello"); SendClick; KeyDown (lit "Enter") false;
               VoiceClick] _ eq_refl) as [Hr [Hm _]].
  split; [exact Hr|exact Hm].
Defined.

(** ** Two submissions in flight *)

Lemma find_activation_drop_other (sub sub' : nat) (l : list (nat * activation)) :
  sub <> sub' ->
  find_activation sub (drop_activation sub' l) = find_activation sub l.
Proof.
  intros Hne. induction l as [|[i b] l IH]; simpl; [reflexivity|].
  destruct (i =? sub') eqn:E'; simpl.
  - apply Nat.eqb_eq in E'. subst i.
    assert ((sub' =? sub) = false) as -> by (apply Nat.eqb_neq; lia).
    exact IH.
  - destruct (i =? sub); [reflexivity|exact IH].
Qed.

(** X12. Nothing ties a response to its query.  With two submissions
    waiting for their bodies, the answers are appended in the order in
    which they arrive, whichever query was sent first: if the answer to
    [sub2] comes before the answer to [sub1], the transcript gains the
    response entry for [sub2] and after it the one for [sub1]. *)
Theorem answers_show_in_order_of_arrival
        (s : state) (sub1 sub2 : nat) (a1 a2 : activation)
        (props1 props2 : list (jsstring * json)) (text1 text2 : jsstring) :
  reachable s ->
  sub1 <> sub2 ->
  find_activation sub1 (suspended s) = Some a1 ->
  awaiting a1 = AwaitJson true ->
  find_activation sub2 (suspended s) = Some a2 ->
  awaiting a2 = AwaitJson true ->
  get_own (lit "response") props1 = Some (JStr text1) ->
  get_own (lit "response") props2 = Some (JStr text2) ->
  exists s',
    run [JsonSettles sub2 (Some (JObj props2));
         JsonSettles sub1 (Some (JObj props1))] s = Some s'
    /\ entries s'
       = entries s
         ++ [mkElement (next_element s) ["response"%string]
               (InnerHTML (replace_newlines text2));
             mkElement (S (next_element s)) ["response"%string]
               (InnerHTML (replace_newlines text1))]
    /\ suspended s' = drop_activation sub1 (drop_activation sub2 (suspended s)).
Proof.
  intros Hr Hne Hf1 Ha1 Hf2 Ha2 Hg1 Hg2.
  pose proof (reachable_tidy s Hr) as Ht.
  pose proof (reachable_invariant s Hr) as [_ _ _ _ _ Hsp].
  assert (response_markup (JObj props1) = Some (replace_newlines text1)) as Hm1
      by (simpl; rewrite Hg1; reflexivity).
  assert (response_markup (JObj props2) = Some (replace_newlines text2)) as Hm2
      by (simpl; rewrite Hg2; reflexivity).
  eexists. split.
  - cbn [run]. rewrite (step_JsonSettles sub2 _ s a2 true Hf2 Ha2).
    rewrite (after_json_success a2 _ _ _ Hm2).
    cbn [queryField messagesContainer mic_active listening inactivityTimer
         timeouts clock suspended next_element next_timeout next_activation
         log with_suspended].
    rewrite (step_JsonSettles sub1 _ _ a1 true); [|cbn [suspended]|exact Ha1].
    + rewrite (after_json_success a1 _ _ _ Hm1). reflexivity.
    + rewrite find_activation_drop_other; [exact Hf1|exact Hne].
  - cbn [messagesContainer suspended next_element with_suspended].
    split; [|reflexivity].
    unfold entries. cbn [messagesContainer].
    rewrite filter_app, filter_detach.
    + rewrite filter_app, filter_detach.
      * simpl. rewrite <- app_assoc. reflexivity.
      * intros c Hc Heq.
        destruct (spinner_by_uid s sub2 a2 c Ht Hf2 Hc Heq) as [_ Hc'].
        unfold has_class. rewrite Hc'. reflexivity.
    + intros c Hc Heq. apply in_app_or in Hc. destruct Hc as [Hc|[<-|[]]].
      * apply filter_In in Hc. destruct Hc as [Hc _].
        destruct (spinner_by_uid s sub1 a1 c Ht Hf1 Hc Heq) as [_ Hc'].
        unfold has_class. rewrite Hc'. reflexivity.
      * exfalso. apply find_activation_In in Hf1.
        pose proof (proj1 (Forall_forall _ _) Hsp _ Hf1) as Hlt.
        simpl in Hlt, Heq. lia.
Qed.

(** "one" is sent, then "two"; the server answers "two" first. *)
Lemma answers_out_of_order :
  exists s',
    run [JsonSettles 1 (Some (JObj [(lit "response", JStr (lit "second"))]));
         JsonSettles 0 (Some (JObj [(lit "response", JStr (lit "first"))]))]
        (state_after [UserInput (lit "one"); SendClick;
                      UserInput (lit "two"); SendClick;
                      FetchSettles 0 (Some true); FetchSettles 1 (Some true)])
    = Some s'
    /\ entries s'
       = [mkElement 0 ["query-message"%string] (InnerHTML (lit "one"));
          mkElement 2 ["query-message"%string] (InnerHTML (lit "two"));
          mkElement 4 ["response"%string] (InnerHTML (lit "second"));
          mkElement 5 ["response"%string] (InnerHTML (lit "first"))].
Proof.
  assert (reachable (state_after [UserInput (lit "one"); SendClick;
                                  UserInput (lit "two"); SendClick;
                                  FetchSettles 0 (Some true);
                                  FetchSettles 1 (Some true)])) as Hr
      by (apply reachable_state_after; vm_compute; discriminate).
  destruct (answers_show_in_order_of_arrival _ 0 1
              (mkActivation FromClick
                 (mkElement 1 ["loading-spinner"%string] NoContent)
                 (AwaitJson true))
              (mkActivation FromClick
                 (mkElement 3 ["loading-spinner"%string] NoContent)
                 (AwaitJson true))
              [(lit "response", JStr (lit "first"))]
              [(lit "response", JStr (lit "second"))]
              (lit "first") (lit "second") Hr)
    as [s' [Hrun [He _]]]; try reflexivity; try (vm_compute; reflexivity).
  - discriminate.
  - exists s'. split; [exact Hrun|]. rewrite He. vm_compute. reflexivity.
Defined.

(** ** The body of a request determines the query *)

Lemma hex_value_digit (d : N) : (d < 16)%N -> hex_value (hex_digit d) = Some d.
Proof.
  intros Hd. unfold hex_digit, hex_value.
  destruct (d <? 10)%N eqn:E.
  - apply N.ltb_lt in E.
    assert ((48 <=? 48 + d) && (48 + d <=? 57) = true)%N as ->
        by (apply andb_true_iff; split; apply N.leb_le; lia).
    f_equal. lia.
  - apply N.ltb_ge in E.
    assert ((48 <=? 87 + d) && (87 + d <=? 57) = false)%N as ->
        by (apply andb_false_iff; right; apply N.leb_gt; lia).
    assert ((97 <=? 87 + d) && (87 + d <=? 102) = true)%N as ->
        by (apply andb_true_iff; split; apply N.leb_le; lia).
    f_equal. lia.
Qed.

Lemma unescape_unicode (c : N) (rest t : jsstring) :
  (c < 65536)%N ->
  unescape rest = Some t ->
  unescape (unicode_escape c ++ rest) = Some (c :: t).
Proof.
  intros Hc Hrest. unfold unicode_escape.
  change (lit "\u") with [92%N; 117%N]. cbn [app unescape].
  change (92 =? 92)%N with true. change (117 =? 117)%N with true. cbv iota.
  rewrite !hex_value_digit by (apply N.mod_lt; discriminate).
  rewrite Hrest. f_equal. f_equal.
  pose proof (N.div_mod c 16 ltac:(discriminate)).
  pose proof (N.div_mod (c / 16) 16 ltac:(discriminate)).
  pose proof (N.div_mod (c / 16 / 16) 16 ltac:(discriminate)).
  assert (c / 256 = c / 16 / 16)%N as E1
      by (rewrite N.Div0.div_div; reflexivity).
  assert (c / 4096 = c / 16 / 16 / 16)%N as E2
      by (rewrite !N.Div0.div_div; reflexivity).
  assert (c / 16 / 16 / 16 < 16)%N as Hhi.
  { rewrite <- E2. apply N.Div0.div_lt_upper_bound. exact Hc. }
  rewrite E1, E2. rewrite (N.mod_small (c / 16 / 16 / 16) 16 Hhi). lia.
Qed.

Lemma unescape_escape_unit (c : N) (rest t : jsstring) :
  unescape rest = Some t ->
  unescape (escape_unit c ++ rest) = Some (c :: t).
Proof.
  intros Hrest. unfold escape_unit.
  destruct (c =? 8)%N eqn:E8;
    [apply N.eqb_eq in E8; subst; simpl; rewrite Hrest; reflexivity|].
  destruct (c =? 9)%N eqn:E9;
    [apply N.eqb_eq in E9; subst; simpl; rewrite Hrest; reflexivity|].
  destruct (c =? 10)%N eqn:E10;
    [apply N.eqb_eq in E10; subst; simpl; rewrite Hrest; reflexivity|].
  destruct (c =? 12)%N eqn:E12;
    [apply N.eqb_eq in E12; subst; simpl; rewrite Hrest; reflexivity|].
  destruct (c =? 13)%N eqn:E13;
    [apply N.eqb_eq in E13; subst; simpl; rewrite Hrest; reflexivity|].
  destruct (c =? 34)%N eqn:E34;
    [apply N.eqb_eq in E34; subst; simpl; rewrite Hrest; reflexivity|].
  destruct (c =? 92)%N eqn:E92;
    [apply N.eqb_eq in E92; subst; simpl; rewrite Hrest; reflexivity|].
  destruct ((c <? 32)%N || is_leading_surrogate c || is_trailing_surrogate c)
    eqn:Eu.
  - apply unescape_unicode; [|exact Hrest].
    unfold is_leading_surrogate, is_trailing_surrogate in Eu.
    apply orb_true_iff in Eu. destruct Eu as [Eu|Eu].
    + apply orb_true_iff in Eu. destruct Eu as [Eu|Eu].
      * apply N.ltb_lt in Eu. lia.
      * apply andb_true_iff in Eu. destruct Eu as [_ Eu].
        apply N.leb_le in Eu. lia.
    + apply andb_true_iff in Eu. destruct Eu as [_ Eu].
      apply N.leb_le in Eu. lia.
  - cbn [app unescape]. rewrite E92, Hrest. reflexivity.
Qed.

Lemma unescape_quote_units (s : jsstring) : unescape (quote_units s) = Some s.
Proof.
  assert (forall n s, List.length s <= n -> unescape (quote_units s) = Some s) as H.
  { induction n as [|n IH]; intros [|c [|d r]] Hlen; simpl in Hlen;
      try reflexivity; try lia.
    - change (quote_units [c]) with (escape_unit c).
      rewrite <- (app_nil_r (escape_unit c)).
      apply unescape_escape_unit. reflexivity.
    - change (quote_units (c :: d :: r))
        with (if is_leading_surrogate c && is_trailing_surrogate d
              then c :: d :: quote_units r
              else escape_unit c ++ quote_units (d :: r)).
      destruct (is_leading_surrogate c && is_trailing_surrogate d) eqn:E.
      + apply andb_true_iff in E. destruct E as [Ec Ed].
        unfold is_leading_surrogate in Ec. unfold is_trailing_surrogate in Ed.
        apply andb_true_iff in Ec. destruct Ec as [Ec _]. apply N.leb_le in Ec.
        apply andb_true_iff in Ed. destruct Ed as [Ed _]. apply N.leb_le in Ed.
        assert ((c =? 92) = false)%N as Ec' by (apply N.eqb_neq; lia).
        assert ((d =? 92) = false)%N as Ed' by (apply N.eqb_neq; lia).
        cbn [unescape]. rewrite Ec', Ed'. rewrite (IH r) by lia. reflexivity.
      + apply unescape_escape_unit. apply IH. simpl. lia. }
  apply (H (List.length s)). lia.
Qed.

(** X13. Different queries go out as different requests: the body
    [JSON.stringify({ query: query })] determines [query], whatever
    quotes, backslashes, control characters or lone surrogates the text
    holds. *)
Theorem request_determines_query (q1 q2 : jsstring) :
  request_of q1 = request_of q2 -> q1 = q2.
Proof.
  unfold request_of, QuoteJSONString. intros H. injection H as H.
  repeat apply app_inv_head in H.
  rewrite ?app_assoc in H. repeat apply app_inv_tail in H.
  assert (unescape (quote_units q1) = unescape (quote_units q2)) as Hu
      by (rewrite H; reflexivity).
  rewrite !unescape_quote_units in Hu. injection Hu as ->. reflexivity.
Qed.

(** The same query gives the same request; a quote and a backslash
    followed by a quote give different ones. *)
Lemma request_determines_query_quotes :
  lit "hi" = lit "hi"
  /\ request_of [34%N] <> request_of [92%N; 34%N].
Proof.
  split.
  - exact (request_determines_query (lit "hi") (lit "hi") eq_refl).
  - intros H. apply request_determines_query in H. discriminate H.
Defined.
